(** * A shallow embedding of the vectorbtpro expert agent

    The development follows the two Python modules of the repository:

    - [agent_system/agent_backend.py]: the text chunker [_split_text], the
      indexing pass [initialize_knowledge_base], retrieval, prompt assembly
      and response normalisation in [generate_response], code extraction
      [extract_python_code], the [/initialize], [/query] and [/status]
      endpoints and the initialization at start-up;
    - [agent_system/jupyter_extension.py]: the bounded conversation history
      kept by the magics and by the widget, the magic commands and the
      handlers of the widget.

    Python strings are sequences of Unicode code points; exceptions are made
    explicit with a small error monad; the external services (file system,
    Chroma collection, generative model) appear as explicit inputs. *)

From Stdlib Require Import ZArith NArith List Ascii String Lia.
From Stdlib Require DecimalNat.
From stdpp Require Import base tactics option list gmap.

Local Open Scope Z_scope.

(* ===================================================================== *)
(** ** Python strings *)
(* ===================================================================== *)

(** A [str] is a list of code points. *)
Abbreviation char := N (only parsing).
Abbreviation str := (list N) (only parsing).

(** String literals of the source, written as Rocq strings. *)
Definition lit (s : string) : str :=
  map N_of_ascii (list_ascii_of_string s).

Definition NL : str := [10%N].
Definition SP : str := [32%N].

(** [len(x)] as a Python integer. *)
Definition len {A} (l : list A) : Z := Z.of_nat (length l).

(** [str.isspace] for one code point (the whitespace table of CPython). *)
Definition isspace (c : char) : bool :=
  ((9 <=? c) && (c <=? 13) || (28 <=? c) && (c <=? 32)
   || (c =? 133) || (c =? 160) || (c =? 5760)
   || (8192 <=? c) && (c <=? 8202)
   || (c =? 8232) || (c =? 8233) || (c =? 8239) || (c =? 8287)
   || (c =? 12288))%N.

(** [text.split()]: maximal runs of non-whitespace, in order.  [cur] is the
    word being read. *)
Fixpoint split_from (cur : str) (s : str) : list str :=
  match s with
  | [] => match cur with [] => [] | _ => [cur] end
  | c :: s' =>
      if isspace c
      then match cur with [] => split_from [] s' | _ => cur :: split_from [] s' end
      else split_from (cur ++ [c]) s'
  end.

Definition py_split (s : str) : list str := split_from [] s.

(** [sep.join(xs)]. *)
Fixpoint join (sep : str) (xs : list str) : str :=
  match xs with
  | [] => []
  | [x] => x
  | x :: xs' => x ++ sep ++ join sep xs'
  end.

(** [s.strip()]. *)
Fixpoint lstrip (s : str) : str :=
  match s with
  | c :: s' => if isspace c then lstrip s' else s
  | [] => []
  end.

Definition rstrip (s : str) : str := reverse (lstrip (reverse s)).
Definition strip (s : str) : str := rstrip (lstrip s).

(** Slices [l[:k]] and [l[k:]] for an arbitrary integer [k]: a negative
    index counts from the end, and nothing is ever out of range. *)
Definition slice_to {A} (l : list A) (k : Z) : list A :=
  if k <? 0 then take (Z.to_nat (Z.max 0 (len l + k))) l
  else take (Z.to_nat k) l.

Definition slice_from {A} (l : list A) (k : Z) : list A :=
  if k <? 0 then drop (Z.to_nat (Z.max 0 (len l + k))) l
  else drop (Z.to_nat k) l.

(** Decimal rendering of a natural number, as [f"{i}"] gives it. *)
Fixpoint digits (u : Decimal.uint) : str :=
  match u with
  | Decimal.Nil => []
  | Decimal.D0 u => 48%N :: digits u
  | Decimal.D1 u => 49%N :: digits u
  | Decimal.D2 u => 50%N :: digits u
  | Decimal.D3 u => 51%N :: digits u
  | Decimal.D4 u => 52%N :: digits u
  | Decimal.D5 u => 53%N :: digits u
  | Decimal.D6 u => 54%N :: digits u
  | Decimal.D7 u => 55%N :: digits u
  | Decimal.D8 u => 56%N :: digits u
  | Decimal.D9 u => 57%N :: digits u
  end.

Definition str_of_nat (n : nat) : str := digits (Nat.to_uint n).

(* ===================================================================== *)
(** ** Exceptions *)
(* ===================================================================== *)

Inductive exn :=
| ZeroDivisionError
| DuplicateIDError
| HTTPException (status_code : Z) (detail : str)
| ExternalError (msg : str).

(** A computation that returns or raises. *)
Inductive Exc (A : Type) :=
| Ok (a : A)
| Raise (e : exn).
Arguments Ok {A} a.
Arguments Raise {A} e.

#[global] Instance Exc_ret : MRet Exc := fun A a => Ok a.
#[global] Instance Exc_bind : MBind Exc := fun A B f m =>
  match m with Ok a => f a | Raise e => Raise e end.

(** [try: body except Exception as e: handler(e)]. *)
Definition try_except {A} (body : Exc A) (handler : exn -> Exc A) : Exc A :=
  match body with Ok a => Ok a | Raise e => handler e end.

(** [try: x = body except Exception: x = default], the handler only
    logging. *)
Definition try_or {A} (body : Exc A) (default : A) : A :=
  match body with Ok a => a | Raise _ => default end.

(** [for x in xs: st = step(st, x)], stopping at the first exception. *)
Fixpoint for_each {S X} (step : S -> X -> Exc S) (xs : list X) (st : S) : Exc S :=
  match xs with
  | [] => Ok st
  | x :: xs' => st' ← step st x; for_each step xs' st'
  end.

(** [a // b] on Python integers. *)
Definition floordiv (a b : Z) : Exc Z :=
  if b =? 0 then Raise ZeroDivisionError else Ok (a / b).

(* ===================================================================== *)
(** ** The text chunker *)
(* ===================================================================== *)

Module Chunker.

(** Loop state of [_split_text]: [chunks], [current_chunk],
    [current_length]. *)
Record state := State {
  chunks : list str;
  current_chunk : list str;
  current_length : Z }.

(** The argument of [max(0, ...)]: a conditional expression whose first
    branch holds the whole subtraction. *)
Definition overlap_start_index (words cur : list str) (overlap : Z) : Exc Z :=
  x ← match words with
      | [] => Ok 0
      | _ => q ← floordiv overlap (len (join SP (slice_to words (overlap / 5))));
             Ok (len cur - q)
      end;
  Ok (Z.max 0 x).

(** One iteration of [for word in words]. *)
Definition step (words : list str) (max_chunk_size overlap : Z)
    (st : state) (word : str) : Exc state :=
  if current_length st + len word + 1 <=? max_chunk_size
  then Ok (State (chunks st) (current_chunk st ++ [word])
                 (current_length st + len word + 1))
  else
    let chunks' := chunks st ++ [join SP (current_chunk st)] in
    i ← overlap_start_index words (current_chunk st) overlap;
    let cur' := slice_from (current_chunk st) i ++ [word] in
    Ok (State chunks' cur' (len (join SP cur'))).

Definition finish (st : state) : list str :=
  match current_chunk st with
  | [] => chunks st
  | _ => chunks st ++ [join SP (current_chunk st)]
  end.

Definition _split_text (text : str) (max_chunk_size overlap : Z) : Exc (list str) :=
  match text with
  | [] => Ok []
  | _ =>
      let words := py_split text in
      match words with
      | [] => Ok []
      | _ =>
          st ← for_each (step words max_chunk_size overlap) words (State [] [] 0);
          Ok (finish st)
      end
  end.

(** The defaults of the signature. *)
Definition default_max_chunk_size : Z := 1000.
Definition default_overlap : Z := 200.

End Chunker.

(* ===================================================================== *)
(** ** The Chroma collection *)
(* ===================================================================== *)

(** The persistent vector collection is an external service.  Its content is
    modelled as the list of stored records in insertion order, and its calls
    by their documented behaviour (chromadb with [PersistentClient]):
    [count] is the number of records, [get] lists the ids, and [add]
    rejects an empty batch and a batch that repeats an id, and ignores a
    record whose id is already stored.  Any call can also fail (the
    storage is a database on disk): whether it does is an input of the code
    that makes the call.  Embeddings play no role here. *)
Module Chroma.

Record record := Record_ {
  rec_id : str;
  rec_document : str;
  rec_source : str }.

Abbreviation collection := (list record).

Definition ids (c : collection) : list str := rec_id <$> c.

Definition count (c : collection) : Z := len c.

Definition add (c : collection) (batch : list record) : Exc collection :=
  match batch with
  | [] => Raise (ExternalError (lit "Expected IDs to be a non-empty list"))
  | _ =>
      if bool_decide (NoDup (ids batch))
      then Ok (c ++ filter (fun r => rec_id r ∉ ids c) batch)
      else Raise DuplicateIDError
  end.

End Chroma.

(* ===================================================================== *)
(** ** The knowledge base indexer *)
(* ===================================================================== *)

(** One markdown file found by [rglob].  [plain_text] is the outcome of
    reading the file and stripping the markup (lines 142 to 149), which are
    library calls: the text, or the exception one of them raised. *)
Record md_file := MdFile {
  stem : str;
  name : str;
  relative_path : str;
  plain_text : Exc str }.

(** What the file system answers about a path. *)
Record directory := Directory {
  dir_exists : bool;
  dir_is_dir : bool;
  dir_rglob_md : list md_file }.

Record VectorBTProExpert := Agent {
  docs_path : str;
  collection : option str;
  system_prompt : str;
  is_initialized : bool }.

Definition collection_name : str := lit "vectorbtpro_docs".

(** The outcome of the external calls of one indexing pass, in the order
    of the source: [get_or_create_collection] (line 97), [collection.count]
    (line 127), [collection.get] (line 132), [collection.add] (line 175). *)
Record index_env := IndexEnv {
  fs : str -> directory;
  get_or_create_collection_raises : bool;
  collection_count_raises : bool;
  collection_get_raises : bool;
  collection_add_raises : bool }.

Module Indexer.

Definition doc_id (f : md_file) (i : nat) : str :=
  stem f ++ lit "_" ++ str_of_nat i.

(** The chunks of one file that are not skipped.  The three lists
    [documents_to_add], [metadatas_to_add] and [ids_to_add] grow together
    and are kept as one list of records. *)
Definition new_records (existing_ids : gset str) (f : md_file)
    (file_chunks : list str) : list Chroma.record :=
  omap (fun ic : nat * str =>
          let id := doc_id f ic.1 in
          if decide (id ∈ existing_ids) then None
          else Some (Chroma.Record_ id ic.2 (relative_path f)))
       (imap pair file_chunks).

(** The body of [for md_file in markdown_files], with its [try]: when the
    file cannot be read or split, it is logged and nothing is appended. *)
Definition process_file (existing_ids : gset str)
    (to_add : list Chroma.record) (f : md_file) : list Chroma.record :=
  try_or
    (text ← plain_text f;
     file_chunks ← Chunker._split_text text Chunker.default_max_chunk_size
                                        Chunker.default_overlap;
     Ok (to_add ++ new_records existing_ids f file_chunks))
    to_add.

(** [self.collection.count()] at line 127.  The call stands in the
    condition of an [if] outside every [try]: when it raises, the exception
    leaves [initialize_knowledge_base]. *)
Definition collection_count (env : index_env) (db : Chroma.collection) : Exc Z :=
  if collection_count_raises env
  then Raise (ExternalError (lit "count failed"))
  else Ok (Chroma.count db).

(** Lines 126 to 136 once [count] has returned the number of records: the
    ids already stored.  When the fetch fails the pass goes on without the
    duplicate check. *)
Definition existing_ids (env : index_env) (db : Chroma.collection) : gset str :=
  if 0 <? Chroma.count db
  then try_or
         (if collection_get_raises env
          then Raise (ExternalError (lit "get failed"))
          else Ok (list_to_set (Chroma.ids db)))
         ∅
  else ∅.

(** Lines 139 to 169: the batch prepared by one pass, once the count at
    line 127 has returned. *)
Definition to_add (env : index_env) (markdown_files : list md_file)
    (db : Chroma.collection) : list Chroma.record :=
  foldl (process_file (existing_ids env db)) [] markdown_files.

(** Lines 171 to 182: the storage call, with its [try]. *)
Definition store (env : index_env) (batch : list Chroma.record)
    (db : Chroma.collection) : Chroma.collection :=
  match batch with
  | [] => db
  | _ =>
      try_or
        (if collection_add_raises env
         then Raise (ExternalError (lit "add failed"))
         else Chroma.add db batch)
        db
  end.

Definition set_initialized (b : bool) (self : VectorBTProExpert) : VectorBTProExpert :=
  Agent (docs_path self) (collection self) (system_prompt self) b.

Definition set_collection (c : option str) (self : VectorBTProExpert) : VectorBTProExpert :=
  Agent (docs_path self) c (system_prompt self) (is_initialized self).

(** [initialize_knowledge_base]: whether the pass returns or raises, and
    the agent and the collection afterwards.  The one call outside a [try]
    is [collection.count] at line 127: when it raises, the collection handle
    is set, [is_initialized] is what it was and nothing is stored. *)
Definition initialize_knowledge_base (env : index_env)
    (self : VectorBTProExpert) (db : Chroma.collection)
  : Exc unit * (VectorBTProExpert * Chroma.collection) :=
  if get_or_create_collection_raises env
  then (Ok tt, (set_initialized false self, db))
  else
    let self := set_collection (Some collection_name) self in
    let dir := fs env (docs_path self) in
    if negb (dir_exists dir) || negb (dir_is_dir dir)
    then (Ok tt, (set_initialized false self, db))
    else
      match dir_rglob_md dir with
      | [] => (Ok tt, (set_initialized true self, db))
      | markdown_files =>
          match collection_count env db with
          | Raise e => (Raise e, (self, db))
          | Ok _ =>
              (Ok tt, (set_initialized true self,
                       store env (to_add env markdown_files db) db))
          end
      end.

End Indexer.

(* ===================================================================== *)
(** ** Retrieval, prompt assembly and response normalisation *)
(* ===================================================================== *)

(** The result of [collection.query]: [documents] holds one list of texts
    per query text, or is absent. *)
Record QueryResult := QueryResult_ {
  documents : option (list (list str)) }.

(** The payload of the generative model.  [br_value] is the number of the
    block reason (zero is "unspecified", which is falsy) and [br_format]
    is the text an f-string gives for it. *)
Record BlockReason := BlockReason_ {
  br_value : Z;
  br_format : str }.

Record PromptFeedback := PromptFeedback_ {
  block_reason : BlockReason }.

Record Part := Part_ { text : str }.

(** [content] is [None] when the candidate carries no content (falsy). *)
Record Candidate := Candidate_ {
  content_parts : option (list Part) }.

Record GenerateContentResponse := Response_ {
  candidates : list Candidate;
  prompt_feedback : option PromptFeedback }.

(** The external calls of one query: the nearest-neighbour search of the
    collection and the hosted model. [None] stands for a falsy result. *)
Record query_env := QueryEnv {
  collection_query : str -> Z -> Exc (option QueryResult);
  generate_content : str -> Exc (option GenerateContentResponse);
  exn_str : exn -> str }.

(** One entry of the conversation history as received: a dict from strings
    to strings, or anything else. *)
Inductive context_entry :=
| Dict (d : gmap (list N) (list N))
| NotDict.

Definition DEFAULT_SYSTEM_PROMPT : str := lit
"You are an expert in vectorbt and vectorbtpro, a Python library for backtesting and analyzing trading strategies.
Your goal is to provide accurate, helpful, and code-centric answers to users' questions about vectorbt and vectorbtpro.
When a user asks a question, you will be given relevant context from the vectorbtpro documentation.
Use this context to inform your answer. If the context is insufficient or the question is ambiguous, ask clarifying questions.
If the user's query can be best answered with a code example, provide a complete, runnable Python code snippet using vectorbtpro.
Ensure the code is well-commented and directly addresses the user's query.
If the query is about a concept, explain it clearly and concisely, referencing the documentation where appropriate.
Do not make up information. If you don't know the answer, say so.
You can also be asked to explain code, debug code, or convert code from other libraries to vectorbtpro.
When providing code, always ensure it is for vectorbtpro.
You are interacting with a user through a JupyterLab extension. The user can execute the code you provide.
Focus on being helpful and providing practical, actionable solutions.
If you are providing a Python code block, make sure it is enclosed in triple backticks with the language specifier, like this:
```python
# Your Python code here
```
".

Module Generator.

Definition search_knowledge_base (env : query_env) (self : VectorBTProExpert)
    (query : str) (n_results : Z) : Exc (list str) :=
  if negb (is_initialized self) || negb (bool_decide (is_Some (collection self)))
  then Ok []
  else
    try_except
      (results ← collection_query env query n_results;
       Ok (match results with
           | Some r =>
               match documents r with
               | Some (first :: _) => first
               | _ => []
               end
           | None => []
           end))
      (fun _ => Ok []).

(** [f"{turn['role']}: {turn['content']}"] for a well-formed turn. *)
Definition render_turn (turn : context_entry) : option str :=
  match turn with
  | Dict d =>
      match d !! lit "role", d !! lit "content" with
      | Some r, Some c => Some (r ++ lit ": " ++ c)
      | _, _ => None
      end
  | NotDict => None
  end.

(** Lines 211 to 231: the prompt handed to the model. *)
Definition final_prompt (system_prompt : str) (rag_context_chunks : list str)
    (context : option (list context_entry)) (user_query : str) : str :=
  let rag_context_str := join (NL ++ NL) rag_context_chunks in
  let prompt_parts := [system_prompt] in
  let prompt_parts :=
    match rag_context_str with
    | [] => prompt_parts
    | _ => prompt_parts
             ++ [NL ++ lit "Relevant context from documentation:" ++ NL;
                 rag_context_str]
    end in
  let prompt_parts :=
    match context with
    | Some ((_ :: _) as turns) =>
        prompt_parts ++ [NL ++ lit "Previous conversation history:" ++ NL]
                     ++ omap render_turn turns
    | _ => prompt_parts
    end in
  let prompt_parts := prompt_parts ++ [NL ++ lit "User query: " ++ user_query] in
  let prompt_parts := prompt_parts ++ [NL ++ lit "Answer:" ++ NL] in
  join NL prompt_parts.

Definition blocked_prefix : str :=
  lit "Sorry, I could not generate a response. The request was blocked due to: ".

Definition fallback_message : str :=
  lit "Sorry, I could not generate a response at this time (empty or unexpected response structure).".

Definition connection_error : str :=
  lit "Error: Could not connect to the generative model.".

Definition not_initialized_error : str :=
  lit "Error: Agent not initialized. Please initialize first.".

(** The parts of the first candidate, when the whole chain
    [response and response.candidates and ... .parts] is truthy. *)
Definition answer_parts (response : option GenerateContentResponse) : option (list Part) :=
  match response with
  | Some r =>
      match candidates r with
      | c :: _ =>
          match content_parts c with
          | Some (p :: ps) => Some (p :: ps)
          | _ => None
          end
      | [] => None
      end
  | None => None
  end.

(** The block reason, when [response and response.prompt_feedback and
    response.prompt_feedback.block_reason] is truthy. *)
Definition blocked_by (response : option GenerateContentResponse) : option BlockReason :=
  match response with
  | Some r =>
      match prompt_feedback r with
      | Some fb => if br_value (block_reason fb) =? 0 then None
                   else Some (block_reason fb)
      | None => None
      end
  | None => None
  end.

(** Lines 243 to 253. *)
Definition model_response_text (response : option GenerateContentResponse) : str :=
  match answer_parts response with
  | Some ps => concat (text <$> ps)
  | None =>
      match blocked_by response with
      | Some reason => blocked_prefix ++ br_format reason ++ lit "."
      | None => fallback_message
      end
  end.

Definition generate_response (env : query_env) (self : VectorBTProExpert)
    (user_query : str) (context : option (list context_entry)) : Exc str :=
  if negb (is_initialized self) then Ok not_initialized_error
  else
    rag_context_chunks ← search_knowledge_base env self user_query 5;
    let prompt := final_prompt (system_prompt self) rag_context_chunks
                               context user_query in
    try_except
      (response ← generate_content env prompt;
       Ok (model_response_text response))
      (fun _ => Ok connection_error).

End Generator.

(* ===================================================================== *)
(** ** Code extraction *)
(* ===================================================================== *)

(** [re.search] for the one pattern of the source, a literal, a lazy
    capture of any characters (DOTALL), a literal: start positions are
    tried from left to right, and at one start the capture grows one
    character at a time until the closing literal matches. *)
Module Regex.

Definition OPEN : str := lit "```python" ++ NL.
Definition CLOSE : str := NL ++ lit "```".

(** The rest of [s] after the literal [p], when [s] starts with it. *)
Fixpoint strip_prefix (p s : str) : option str :=
  match p, s with
  | [], _ => Some s
  | a :: p', b :: s' => if (a =? b)%N then strip_prefix p' s' else None
  | _ :: _, [] => None
  end.

(** [(.*?)] followed by the continuation [k]: the shortest capture first. *)
Fixpoint lazy_any {X} (k : str -> option X) (s : str) : option (str * X) :=
  match k s with
  | Some x => Some ([], x)
  | None =>
      match s with
      | [] => None
      | c :: s' => (fun gx : str * X => (c :: gx.1, gx.2)) <$> lazy_any k s'
      end
  end.

(** A match that starts at the head of [s]; the result is group 1. *)
Definition match_at (s : str) : option str :=
  rest ← strip_prefix OPEN s;
  fst <$> lazy_any (strip_prefix CLOSE) rest.

Fixpoint search (s : str) : option str :=
  match match_at s with
  | Some g => Some g
  | None => match s with [] => None | _ :: s' => search s' end
  end.

End Regex.

Definition extract_python_code (text : str) : option str :=
  strip <$> Regex.search text.

(* ===================================================================== *)
(** ** The conversation service *)
(* ===================================================================== *)

Record InitRequest := InitRequest_ {
  gemini_api_key : str;
  request_docs_path : str }.

(** The dict returned by [/initialize]. *)
Record InitResponse := InitResponse_ {
  init_status : str;
  init_message : str }.

Record QueryRequest := QueryRequest_ {
  query : str;
  context : option (list context_entry) }.

Record QueryResponse := QueryResponse_ {
  response : str;
  code : option str;
  status : str }.

(** The external side of [/initialize]: whether the constructor of the
    agent raises (model client, data directory, Chroma client), what
    [str(Path(p))] is for a path string [p] (the session keeps
    [Path(docs_path)], and the messages print it), the calls of the indexing
    pass, and whether [collection.count] raises when the endpoint counts the
    documents at line 320. *)
Record init_env := InitEnv {
  constructor_raises : option exn;
  path_str : str -> str;
  index : index_env;
  report_count_raises : bool;
  init_exn_str : exn -> str }.

Module Service.

Definition failed_to_initialize (env : init_env) (e : exn) : exn :=
  HTTPException 500 (lit "Failed to initialize agent: " ++ init_exn_str env e).

(** Lines 316 to 341, once the pass has returned.  The count at line 320
    stands inside the [try] of the endpoint. *)
Definition init_report (env : init_env) (agent : VectorBTProExpert)
    (db : Chroma.collection) : Exc InitResponse :=
  if is_initialized agent then
    kb_count ← match collection agent with
               | Some _ =>
                   if report_count_raises env
                   then Raise (ExternalError (lit "count failed"))
                   else Ok (Chroma.count db)
               | None => Ok 0
               end;
    let dir := fs (index env) (docs_path agent) in
    if 0 <? kb_count then
      Ok (InitResponse_ (lit "success")
            (lit "Agent initialized successfully. Knowledge base loaded with "
             ++ str_of_nat (Z.to_nat kb_count) ++ lit " documents."))
    else if dir_exists dir && bool_decide (dir_rglob_md dir = []) then
      Ok (InitResponse_ (lit "warning")
            (lit "Agent initialized, but knowledge base is empty: No markdown files found in '"
             ++ docs_path agent ++ lit "'."))
    else if negb (dir_exists dir) then
      Ok (InitResponse_ (lit "warning")
            (lit "Agent initialized, but knowledge base could not be built: Documentation path '"
             ++ docs_path agent ++ lit "' not found."))
    else
      Ok (InitResponse_ (lit "warning")
            (lit "Agent initialized, but knowledge base is empty or incomplete. Check logs."))
  else
    Raise (HTTPException 500
             (lit "Agent initialization failed. Check logs for errors (e.g., ChromaDB setup, API key issues for embedding model if not local).")).

(** [POST /initialize]: the outcome, the global [agent] and the collection
    afterwards.  The global is assigned as soon as the constructor returns;
    every exception raised after that, by the pass or by the report, is
    turned into an HTTP 500 by the handler at line 344. *)
Definition initialize_agent_endpoint (env : init_env) (request : InitRequest)
    (agent : option VectorBTProExpert) (db : Chroma.collection)
  : Exc InitResponse * (option VectorBTProExpert * Chroma.collection) :=
  match gemini_api_key request with
  | [] => (Raise (HTTPException 400 (lit "GEMINI_API_KEY is required.")), (agent, db))
  | _ =>
      match constructor_raises env with
      | Some e => (Raise (failed_to_initialize env e), (agent, db))
      | None =>
          let fresh := Agent (path_str env (request_docs_path request)) None
                             DEFAULT_SYSTEM_PROMPT false in
          let r := Indexer.initialize_knowledge_base (index env) fresh db in
          (try_except (_ ← r.1; init_report env r.2.1 r.2.2)
                      (fun e => Raise (failed_to_initialize env e)),
           (Some r.2.1, r.2.2))
      end
  end.

Definition not_initialized_response : QueryResponse :=
  QueryResponse_ (lit "Agent not initialized. Please call /initialize first.")
                 None (lit "agent_not_initialized").

(** [POST /query]. *)
Definition query_agent_endpoint (env : query_env) (request : QueryRequest)
    (agent : option VectorBTProExpert) : Exc QueryResponse :=
  match agent with
  | None => Ok not_initialized_response
  | Some a =>
      if negb (is_initialized a) then Ok not_initialized_response
      else
        try_except
          (raw_response ← Generator.generate_response env a (query request)
                                                      (context request);
           let extracted_code := extract_python_code raw_response in
           Ok (QueryResponse_ raw_response extracted_code (lit "success")))
          (fun e =>
             Ok (QueryResponse_ (lit "An error occurred: " ++ exn_str env e)
                                None (lit "error")))
  end.

End Service.

(* ===================================================================== *)
(** ** The notebook client: bounded conversation history *)
(* ===================================================================== *)

Module Notebook.

Definition MAX_CONTEXT_HISTORY : Z := 5.

(** The dict [{"role": role, "content": content}]. *)
Record message := Message {
  role : str;
  content : str }.

(** [VectorBTProMagics._add_to_context]. *)
Definition _add_to_context (context_history : list message)
    (role content : str) : list message :=
  let context_history :=
    if MAX_CONTEXT_HISTORY * 2 <=? len context_history
    then slice_from context_history (- (MAX_CONTEXT_HISTORY * 2 - 2))
    else context_history in
  context_history ++ [Message role content].

(** [VectorBTProWidget._add_to_widget_context]. *)
Definition _add_to_widget_context (context_history : list message)
    (role content : str) : list message :=
  let context_history :=
    if MAX_CONTEXT_HISTORY * 2 <=? len context_history
    then slice_from context_history (- (MAX_CONTEXT_HISTORY * 2 - 2))
    else context_history in
  context_history ++ [Message role content].

(** The history after a sequence of appends to the empty history with which
    both classes start. *)
Definition after_appends (add : list message -> str -> str -> list message)
    (msgs : list message) : list message :=
  foldl (fun h m => add h (role m) (content m)) [] msgs.

End Notebook.

(* ===================================================================== *)
(** ** Notions used to state the properties *)
(* ===================================================================== *)

(** [needle] occurs in [hay]. *)
Definition occurs_in (needle hay : str) : Prop :=
  exists pre post, hay = pre ++ needle ++ post.

(** What the pattern of [extract_python_code] matches: its opening
    literal, a capture [inner] and its closing literal, placed in [text]
    after [pre] and before [post]. *)
Definition block_at (text pre inner post : str) : Prop :=
  text = pre ++ Regex.OPEN ++ inner ++ Regex.CLOSE ++ post.

Definition has_block (text : str) : Prop :=
  exists pre inner post, block_at text pre inner post.

(** The first match: none starts earlier, and none with the same start
    ends earlier. *)
Definition first_block (text pre inner post : str) : Prop :=
  block_at text pre inner post /\
  forall pre' inner' post', block_at text pre' inner' post' ->
    (length pre < length pre')%nat \/
    (length pre = length pre' /\ length inner <= length inner')%nat.

(** *** Fenced blocks, as markdown writes them *)






(** [code] is [s] without its leading and trailing whitespace. *)
Definition trimmed (s code : str) : Prop :=
  exists before after,
    s = before ++ code ++ after /\
    Forall (fun c => isspace c = true) before /\
    Forall (fun c => isspace c = true) after /\
    (forall c rest, code = c :: rest -> isspace c = false) /\
    (forall front c, code = front ++ [c] -> isspace c = false).

(** Chunks listed with the number of overlap words each one carries over:
    the first [k] words of a chunk are the last [k] words of the chunk
    before it ([prev]). *)
Fixpoint overlap_chain (prev : list str) (kcs : list (nat * list str)) : Prop :=
  match kcs with
  | [] => True
  | kc :: rest =>
      (kc.1 <= length prev)%nat /\
      take kc.1 kc.2 = drop (length prev - kc.1) prev /\
      overlap_chain kc.2 rest
  end.

(** The words of the chunks once the carried-over words are removed. *)
Definition fresh_words (kcs : list (nat * list str)) : list str :=
  concat ((fun kc : nat * list str => drop kc.1 kc.2) <$> kcs).

Definition chunk_text (kc : nat * list str) : str := join SP kc.2.

(** A chunk stays within [max_chunk_size], or holds at most one word that
    is not carried over. *)
Definition chunk_bounded (max_chunk_size : Z) (kc : nat * list str) : Prop :=
  len (chunk_text kc) <= max_chunk_size \/ (length kc.2 <= kc.1 + 1)%nat.

(** A word as [split] produces them: not empty, no whitespace inside. *)
Definition word_ok (w : str) : Prop :=
  w <> [] /\ Forall (fun c => isspace c = false) w.

(** The words of the last chunk of a list, [prev] when there is none. *)
Fixpoint last_words (prev : list str) (kcs : list (nat * list str)) : list str :=
  match kcs with
  | [] => prev
  | kc :: rest => last_words kc.2 rest
  end.

(** Loop invariant of [_split_text] once the words [seen] are consumed:
    [kcs] are the closed chunks and [k] counts the carried-over words of
    the open chunk. *)
Record split_inv (max_chunk_size : Z) (seen : list str) (st : Chunker.state)
    (kcs : list (nat * list str)) (k : nat) : Prop := SplitInv {
  inv_chunks : Chunker.chunks st = chunk_text <$> kcs;
  inv_chain : overlap_chain [] (kcs ++ [(k, Chunker.current_chunk st)]);
  inv_fresh : fresh_words (kcs ++ [(k, Chunker.current_chunk st)]) = seen;
  inv_bound : Forall (chunk_bounded max_chunk_size)
                     (kcs ++ [(k, Chunker.current_chunk st)]);
  inv_words : Forall (fun kc : nat * list str => Forall word_ok kc.2)
                     (kcs ++ [(k, Chunker.current_chunk st)]);
  inv_k : (k <= length (Chunker.current_chunk st))%nat;
  inv_len : len (join SP (Chunker.current_chunk st)) <= Chunker.current_length st }.

(** Every chunk record of a corpus: the batch of a pass that skips
    nothing. *)
Definition corpus_records (markdown_files : list md_file) : list Chroma.record :=
  foldl (Indexer.process_file ∅) [] markdown_files.

(** No external call of an indexing pass raises. *)
Definition faultless (env : index_env) : Prop :=
  get_or_create_collection_raises env = false /\
  collection_count_raises env = false /\
  collection_get_raises env = false /\
  collection_add_raises env = false.

(** The pass of a new session over the corpus root [path] leaves it
    initialized: the collection opens, the root is an existing directory
    and, when markdown files are found, counting the stored documents does
    not raise. *)
Definition indexable (env : index_env) (path : str) : Prop :=
  let dir := fs env path in
  get_or_create_collection_raises env = false /\
  dir_exists dir = true /\ dir_is_dir dir = true /\
  (dir_rglob_md dir = [] \/ collection_count_raises env = false).

(** A payload without answer text: no payload at all, no candidate, or a
    first candidate without content parts. *)
Definition no_answer (payload : option GenerateContentResponse) : Prop :=
  payload = None \/
  exists r, payload = Some r /\
    (candidates r = [] \/
     exists c cs, candidates r = c :: cs /\
       (content_parts c = None \/ content_parts c = Some [])).

(** A blocked-response payload: no answer text and a block reason. *)
Definition blocked_payload (payload : option GenerateContentResponse)
    (reason : BlockReason) : Prop :=
  no_answer payload /\
  exists r, payload = Some r /\
    prompt_feedback r = Some (PromptFeedback_ reason) /\ br_value reason <> 0.

(** An empty or structurally unexpected payload: no answer text and no
    block reason. *)
Definition empty_payload (payload : option GenerateContentResponse) : Prop :=
  no_answer payload /\
  (payload = None \/
   exists r, payload = Some r /\
     (prompt_feedback r = None \/
      exists fb, prompt_feedback r = Some fb /\ br_value (block_reason fb) = 0)).

(** *** Sample inputs *)

Definition silent_model : query_env :=
  QueryEnv (fun _ _ => Ok (Some (QueryResult_ None)))
           (fun _ => Ok None)
           (fun _ => []).

Definition sample_request : QueryRequest := QueryRequest_ (lit "Q") None.

Definition ready_agent : VectorBTProExpert :=
  Agent (lit "/docs") (Some collection_name) (lit "S") true.

Definition fresh_agent : VectorBTProExpert :=
  Agent (lit "/docs") None (lit "S") false.

(** A corpus root that does not exist. *)
Definition missing_root : index_env :=
  IndexEnv (fun _ => Directory false false []) false false false false.

(** A corpus of one short file, [guide.md]. *)
Definition guide : md_file :=
  MdFile (lit "guide") (lit "guide.md") (lit "guide.md") (Ok (lit "hello world")).

Definition one_file (get_raises add_raises : bool) : index_env :=
  IndexEnv (fun _ => Directory true true [guide]) false false get_raises add_raises.

Definition sample_init (e : index_env) : init_env :=
  InitEnv None (fun p => p) e false (fun _ => []).

Definition sample_init_request : InitRequest :=
  InitRequest_ (lit "key") (lit "/docs").

(** A model that blocks every prompt for safety. *)
Definition safety : BlockReason := BlockReason_ 1 (lit "SAFETY").

Definition blocking_model : query_env :=
  QueryEnv (fun _ _ => Ok (Some (QueryResult_ None)))
           (fun _ => Ok (Some (Response_ [] (Some (PromptFeedback_ safety)))))
           (fun _ => []).

(* ===================================================================== *)
(** ** Status, start-up initialization and the notebook commands *)
(* ===================================================================== *)

Definition DEFAULT_DOCS_PATH : str := lit "/home/jovyan/vectorbtpro/docs".
Definition model_name : str := lit "gemini-pro".
Definition db_path : str := lit "/home/jovyan/work/knowledge_base".

Module Startup.

(** [GET /status]: the returned dict, as its items in order.
    [count_raises] tells whether [collection.count] raises. *)
Definition knowledge_base_status (count_raises : bool)
    (agent : VectorBTProExpert) (db : Chroma.collection) : str :=
  match collection agent with
  | Some _ =>
      try_or
        (count ← (if count_raises then Raise (ExternalError (lit "count failed"))
                  else Ok (Chroma.count db));
         Ok (if 0 <? count
             then lit "loaded with " ++ str_of_nat (Z.to_nat count) ++ lit " documents"
             else lit "loaded but empty"))
        (lit "loaded, but count unavailable")
  | None => lit "not loaded or empty"
  end.

Definition get_status (count_raises : bool) (agent : option VectorBTProExpert)
    (db : Chroma.collection) : list (str * str) :=
  match agent with
  | Some a =>
      if is_initialized a then
        [(lit "agent_status", lit "initialized");
         (lit "model_name", model_name);
         (lit "docs_path", docs_path a);
         (lit "knowledge_base_status", knowledge_base_status count_raises a db);
         (lit "collection_name", collection_name);
         (lit "db_path", db_path)]
      else [(lit "agent_status", lit "not_initialized")]
  | None => [(lit "agent_status", lit "not_initialized")]
  end.

(** [_auto_initialize_agent_impl]: the global [agent] and the collection
    afterwards.  [getenv_key] and [getenv_docs] are the values of
    [GEMINI_API_KEY] and [DOCS_PATH] in the environment; every exception is
    logged. *)
Definition _auto_initialize_agent_impl (env : init_env)
    (getenv_key getenv_docs : option str)
    (agent : option VectorBTProExpert) (db : Chroma.collection)
  : option VectorBTProExpert * Chroma.collection :=
  match getenv_key with
  | Some (_ :: _) =>
      match constructor_raises env with
      | Some _ => (agent, db)
      | None =>
          let fresh := Agent (path_str env (default DEFAULT_DOCS_PATH getenv_docs))
                             None DEFAULT_SYSTEM_PROMPT false in
          let r := Indexer.initialize_knowledge_base (index env) fresh db in
          (Some r.2.1, r.2.2)
      end
  | _ => (agent, db)
  end.

End Startup.

Module Magics.

Import Notebook.

(** What a request to the backend gave: a transport, HTTP or decoding
    error, or the decoded JSON object with its [response] and [code]
    fields when present. *)
Inductive http_outcome :=
| HttpFailed
| HttpOk (result_response : option str) (result_code : option str).

Definition NO_RESPONSE_TEXT : str := lit "No response text received.".

(** [%%vectorbt_expert]: the part that acts on [context_history]. *)
Definition vectorbt_expert (context_history : list message) (cell : str)
    (outcome : http_outcome) : list message :=
  match strip cell with
  | [] => context_history
  | query =>
      match outcome with
      | HttpFailed => context_history
      | HttpOk result_response _ =>
          let agent_response_text := default NO_RESPONSE_TEXT result_response in
          _add_to_context
            (_add_to_context context_history (lit "user") query)
            (lit "assistant") agent_response_text
      end
  end.

(** [s.split("=", 1)[1]] for a string that contains the separator. *)
Fixpoint after_first (sep : N) (s : str) : str :=
  match s with
  | [] => []
  | c :: s' => if (c =? sep)%N then s' else after_first sep s'
  end.

Definition DOCS_PATH_OPTION : str := lit "optional_docs_path=".

(** [%vectorbt_init]: the JSON payload built from the arguments that
    [shlex.split] returned, as its fields [gemini_api_key] and [docs_path];
    [None] when the usage message is printed instead. *)
Definition vectorbt_init_payload (args : list str) : option (str * option str) :=
  match args with
  | [] => None
  | api_key :: rest =>
      let docs_path :=
        match rest with
        | [] => None
        | arg :: _ =>
            if bool_decide (is_Some (Regex.strip_prefix DOCS_PATH_OPTION arg))
            then Some (after_first 61 arg)
            else Some arg
        end in
      Some (api_key,
            match docs_path with
            | Some ((_ :: _) as p) => Some p
            | _ => None
            end)
  end.

(** The request that the backend reads from the payload: an absent
    [docs_path] takes the default of [InitRequest]. *)
Definition init_request_of_payload (payload : str * option str) : InitRequest :=
  InitRequest_ payload.1 (default DEFAULT_DOCS_PATH payload.2).

End Magics.

Module Widget.

Import Notebook.

(** The state of [VectorBTProWidget] that its handlers change.  A button
    is identified by a number. *)
Record state := State {
  context_history : list message;
  current_code_to_run : option str;
  current_execute_button : option nat }.

(** [_process_query]; [new_button] is the button created when the reply
    carries code. *)
Definition _process_query (w : state) (query : str)
    (outcome : Magics.http_outcome) (new_button : nat) : state :=
  let w :=
    match current_execute_button w with
    | Some _ => State (context_history w) None None
    | None => w
    end in
  match outcome with
  | Magics.HttpFailed => w
  | Magics.HttpOk result_response result_code =>
      let agent_response_text :=
        default Magics.NO_RESPONSE_TEXT result_response in
      let h := _add_to_widget_context
                 (_add_to_widget_context (context_history w) (lit "user") query)
                 (lit "assistant") agent_response_text in
      State h result_code
            (match result_code with
             | Some (_ :: _) => Some new_button
             | _ => current_execute_button w
             end)
  end.

(** [_on_submit]: a blank input is ignored. *)
Definition _on_submit (w : state) (value : str)
    (outcome : Magics.http_outcome) (new_button : nat) : state :=
  match strip value with
  | [] => w
  | query => _process_query w query outcome new_button
  end.

(** [_execute_code_button_clicked]: the state afterwards and the code handed
    to the shell, if any. *)
Definition _execute_code_button_clicked (w : state) (b : nat)
    (shell_available : bool) : state * option str :=
  let executed :=
    match current_code_to_run w with
    | Some ((_ :: _) as code_to_run) =>
        if shell_available then Some code_to_run else None
    | _ => None
    end in
  (State (context_history w) None
         (if bool_decide (current_execute_button w = Some b) then None
          else current_execute_button w),
   executed).

(** What happens to the widget: a submitted input with the reply of the
    backend and the button it would create, or a click on a button. *)
Inductive event :=
| Submit (value : str) (outcome : Magics.http_outcome) (new_button : nat)
| Click (b : nat).

(** The widget after a sequence of events, with the codes handed to the
    shell, oldest first. *)
Definition handle (shell_available : bool) (st : state * list str) (e : event)
  : state * list str :=
  match e with
  | Submit value outcome new_button =>
      (_on_submit st.1 value outcome new_button, st.2)
  | Click b =>
      let r := _execute_code_button_clicked st.1 b shell_available in
      (r.1, match r.2 with Some c => st.2 ++ [c] | None => st.2 end)
  end.

Definition run (shell_available : bool) (events : list event) : state * list str :=
  foldl (handle shell_available) (State [] None None, []) events.

End Widget.

(** *** Further notions *)

(** The messages of a list of exchanges (question, answer), in order. *)
Definition exchange_messages (exchanges : list (str * str)) : list Notebook.message :=
  exchanges ≫= fun qa => [Notebook.Message (lit "user") qa.1;
                          Notebook.Message (lit "assistant") qa.2].

(** The exchanges that a sequence of cells records: the cells that are not
    blank and whose request succeeded. *)
Definition recorded_exchanges (cells : list (str * Magics.http_outcome))
  : list (str * str) :=
  omap (fun co : str * Magics.http_outcome =>
          match strip co.1, co.2 with
          | (_ :: _) as q, Magics.HttpOk r _ =>
              Some (q, default Magics.NO_RESPONSE_TEXT r)
          | _, _ => None
          end) cells.

(** The replies that suggest code. *)
Definition suggests_code (e : Widget.event) : bool :=
  match e with
  | Widget.Submit value (Magics.HttpOk _ (Some (_ :: _))) _ =>
      match strip value with [] => false | _ => true end
  | _ => false
  end.

(** [len w + 1] summed over the words: what [current_length] reaches when
    every word is appended to the first chunk. *)
Definition appended_length (ws : list str) : Z :=
  foldr (fun w acc => len w + 1 + acc) 0 ws.

(** The context block and the history block of the prompt. *)
Definition context_block (rag_context_chunks : list str) : str :=
  match join (NL ++ NL) rag_context_chunks with
  | [] => []
  | rag_context_str =>
      NL ++ NL ++ lit "Relevant context from documentation:" ++ NL
      ++ NL ++ rag_context_str
  end.

Definition history_block (context : option (list context_entry)) : str :=
  match context with
  | Some ((_ :: _) as turns) =>
      NL ++ NL ++ lit "Previous conversation history:" ++ NL
      ++ concat ((fun line => NL ++ line) <$> omap Generator.render_turn turns)
  | _ => []
  end.

(** [chunk] is a run of consecutive words of [words], joined by single
    spaces. *)
Definition word_run (words : list str) (chunk : str) : Prop :=
  exists before run after, words = before ++ run ++ after /\ chunk = join SP run.

(** A chunk stays within [max_chunk_size], or holds at most [most] words
    (the words of a string being what [split] makes of it). *)
Definition few_words (max_chunk_size : Z) (most : nat) (chunk : str) : Prop :=
  len chunk <= max_chunk_size \/ (length (py_split chunk) <= most)%nat.

(** The number of words that the overlap arithmetic carries over at most:
    [overlap // len(" ".join(words[:overlap//5]))]. *)
Definition carried_at_most (words : list str) (overlap : Z) : nat :=
  Z.to_nat (overlap / len (join SP (slice_to words (overlap / 5)))).

(** Two markdown files in different directories with the same stem. *)
Definition two_index_files : list md_file :=
  [MdFile (lit "index") (lit "index.md") (lit "a/index.md") (Ok (lit "alpha"));
   MdFile (lit "index") (lit "index.md") (lit "b/index.md") (Ok (lit "beta"))].

(* ===================================================================== *)
(** * Properties *)
(* ===================================================================== *)

(** ** The query endpoint and the response generator *)

Lemma search_knowledge_base_returns env self q n :
  exists chunks, Generator.search_knowledge_base env self q n = Ok chunks.
Proof.
  unfold Generator.search_knowledge_base.
  destruct (negb (is_initialized self) || _); [by eexists|].
  destruct (collection_query env q n) as [[r|]|e]; simpl; by eexists.
Qed.

(** What [generate_response] returns on an initialized session, in terms
    of the prompt built from the retrieved chunks. *)
Lemma generate_response_initialized env self q ctx :
  is_initialized self = true ->
  exists chunks,
    Generator.search_knowledge_base env self q 5 = Ok chunks /\
    Generator.generate_response env self q ctx
    = Ok (match generate_content env
                  (Generator.final_prompt (system_prompt self) chunks ctx q) with
          | Ok payload => Generator.model_response_text payload
          | Raise _ => Generator.connection_error
          end).
Proof.
  intros Hinit.
  destruct (search_knowledge_base_returns env self q 5) as [chunks Hs].
  exists chunks. split; [exact Hs|].
  unfold Generator.generate_response. rewrite Hinit, Hs. simpl.
  by destruct (generate_content env _).
Qed.

(** C8: a query received while no session exists, or while the session is
    not initialized, is answered with the fixed status
    "agent_not_initialized"; the endpoint returns and does not raise. *)
Theorem query_before_initialize env request agent :
  (agent = None \/ exists a, agent = Some a /\ is_initialized a = false) ->
  exists r,
    Service.query_agent_endpoint env request agent = Ok r /\
    status r = lit "agent_not_initialized".
Proof.
  intros [-> | (a & -> & Ha)]; simpl.
  - by eexists.
  - rewrite Ha. by eexists.
Qed.

Lemma query_before_initialize_witness :
  (Some fresh_agent = None \/
   exists a, Some fresh_agent = Some a /\ is_initialized a = false) /\
  exists r,
    Service.query_agent_endpoint silent_model sample_request (Some fresh_agent)
    = Ok r /\
    status r = lit "agent_not_initialized".
Proof.
  assert (H : Some fresh_agent = None \/
              exists a, Some fresh_agent = Some a /\ is_initialized a = false).
  { right. exists fresh_agent. split; reflexivity. }
  split; [exact H|].
  exact (query_before_initialize silent_model sample_request _ H).
Defined.

(** C10: on an initialized session the query endpoint always answers
    with status "success": [generate_response] returns a string whatever
    the model does, so the handler that sets status "error" is never
    entered, and a failure of the model (transport fault, blocked or empty
    payload) shows only in the response text. *)
Theorem query_initialized_success env request a :
  is_initialized a = true ->
  exists raw,
    Generator.generate_response env a (query request) (context request) = Ok raw /\
    Service.query_agent_endpoint env request (Some a)
    = Ok (QueryResponse_ raw (extract_python_code raw) (lit "success")) /\
    (forall chunks e,
        Generator.search_knowledge_base env a (query request) 5 = Ok chunks ->
        generate_content env
          (Generator.final_prompt (system_prompt a) chunks
                                  (context request) (query request)) = Raise e ->
        raw = Generator.connection_error).
Proof.
  intros Hinit.
  destruct (generate_response_initialized env a (query request)
              (context request) Hinit) as (chunks & Hs & Hg).
  eexists. split; [exact Hg|]. split.
  - simpl. rewrite Hinit. simpl. by rewrite Hg.
  - intros chunks' e Hs' He. rewrite Hs in Hs'. injection Hs' as <-.
    by rewrite He.
Qed.

Lemma query_initialized_success_witness :
  is_initialized ready_agent = true /\
  exists raw,
    Generator.generate_response silent_model ready_agent (query sample_request)
                                (context sample_request) = Ok raw /\
    Service.query_agent_endpoint silent_model sample_request (Some ready_agent)
    = Ok (QueryResponse_ raw (extract_python_code raw) (lit "success")) /\
    (forall chunks e,
        Generator.search_knowledge_base silent_model ready_agent
                                        (query sample_request) 5 = Ok chunks ->
        generate_content silent_model
          (Generator.final_prompt (system_prompt ready_agent) chunks
                                  (context sample_request) (query sample_request))
        = Raise e ->
        raw = Generator.connection_error).
Proof.
  split; [reflexivity|].
  exact (query_initialized_success silent_model sample_request ready_agent eq_refl).
Defined.

Lemma no_answer_parts payload :
  no_answer payload -> Generator.answer_parts payload = None.
Proof.
  intros [-> | (r & -> & [Hc | (c & cs & Hc & [Hp | Hp])])];
    simpl; try rewrite Hc; try rewrite Hp; reflexivity.
Qed.

Lemma blocked_payload_text payload reason :
  blocked_payload payload reason ->
  Generator.model_response_text payload
  = Generator.blocked_prefix ++ br_format reason ++ lit ".".
Proof.
  intros [Hno (r & -> & Hfb & Hv)].
  unfold Generator.model_response_text. rewrite (no_answer_parts _ Hno).
  simpl. rewrite Hfb. simpl.
  destruct (Z.eqb_spec (br_value reason) 0); [contradiction | reflexivity].
Qed.

Lemma empty_payload_text payload :
  empty_payload payload ->
  Generator.model_response_text payload = Generator.fallback_message.
Proof.
  intros [Hno H].
  unfold Generator.model_response_text. rewrite (no_answer_parts _ Hno).
  destruct H as [-> | (r & -> & [Hfb | (fb & Hfb & Hv)])]; simpl;
    try rewrite Hfb; try rewrite Hv; reflexivity.
Qed.

(** C4: on an initialized session [generate_response] returns a string and
    does not raise, whatever the model does with the prompt: a transport or
    API exception gives the fixed connection-error string, a blocked
    payload gives a string that contains the block reason, and an empty or
    unexpected payload gives the fixed fallback message. *)
Theorem generate_response_outcomes env self q ctx :
  is_initialized self = true ->
  exists chunks s,
    Generator.search_knowledge_base env self q 5 = Ok chunks /\
    Generator.generate_response env self q ctx = Ok s /\
    let outcome :=
      generate_content env
        (Generator.final_prompt (system_prompt self) chunks ctx q) in
    (forall e, outcome = Raise e -> s = Generator.connection_error) /\
    (forall payload reason,
        outcome = Ok payload -> blocked_payload payload reason ->
        s = Generator.blocked_prefix ++ br_format reason ++ lit "." /\
        occurs_in (br_format reason) s) /\
    (forall payload,
        outcome = Ok payload -> empty_payload payload ->
        s = Generator.fallback_message).
Proof.
  intros Hinit.
  destruct (generate_response_initialized env self q ctx Hinit)
    as (chunks & Hs & Hg).
  exists chunks. eexists. split; [exact Hs|]. split; [exact Hg|].
  cbv zeta. split; [|split].
  - intros e ->. reflexivity.
  - intros payload reason -> Hblocked.
    rewrite (blocked_payload_text _ _ Hblocked). split; [reflexivity|].
    exists Generator.blocked_prefix, (lit "."). reflexivity.
  - intros payload ->. apply empty_payload_text.
Qed.

Lemma generate_response_outcomes_witness :
  is_initialized ready_agent = true /\
  Generator.generate_response blocking_model ready_agent (lit "Q") None
  = Ok (Generator.blocked_prefix ++ lit "SAFETY" ++ lit ".").
Proof.
  split; [reflexivity|].
  destruct (generate_response_outcomes blocking_model ready_agent (lit "Q") None
              eq_refl) as (chunks & s & _ & Hg & _ & Hb & _).
  rewrite Hg. f_equal.
  refine (proj1 (Hb _ safety eq_refl _)).
  split.
  - right. eexists. split; [reflexivity|]. left. reflexivity.
  - eexists. split; [reflexivity|]. split; [reflexivity|]. discriminate.
Defined.

(** ** The prompt *)

(** C3 (as stated, refuted): with system prompt "S", query "Q", no
    retrieved chunk and no history, the prompt is not
    "S" + "\nUser query: Q\nAnswer:\n": the parts are joined with a newline
    and the last two begin with one, so each label follows a blank line. *)
Lemma prompt_single_newlines_refuted :
  Generator.final_prompt (lit "S") [] (Some []) (lit "Q")
  <> lit "S" ++ NL ++ lit "User query: " ++ lit "Q" ++ NL ++ lit "Answer:" ++ NL.
Proof. vm_compute. discriminate. Qed.

(** C3 (amended): for every system prompt [sys] and query [q], the prompt
    assembled with no retrieved chunk and an empty (or absent) history is
    exactly [sys + "\n\nUser query: " + q + "\n\nAnswer:\n"]; the context
    and history blocks are left out entirely. *)
Theorem prompt_without_context_and_history sys q :
  Generator.final_prompt sys [] (Some []) q
  = sys ++ NL ++ NL ++ lit "User query: " ++ q ++ NL ++ NL ++ lit "Answer:" ++ NL
  /\ Generator.final_prompt sys [] None q
     = Generator.final_prompt sys [] (Some []) q.
Proof.
  split; [|reflexivity].
  unfold Generator.final_prompt. cbn [join app].
  rewrite <- ?app_assoc. reflexivity.
Qed.

(** ** Initialization with a missing corpus root *)

(** C2 (as stated, refuted): with a corpus root that does not exist the
    pass leaves the flag false, and [/initialize] raises an HTTP 500
    instead of reporting a warning. *)
Lemma missing_root_refuted :
  is_initialized
    (Indexer.initialize_knowledge_base missing_root fresh_agent []).2.1 = false
  /\ (Service.initialize_agent_endpoint (sample_init missing_root)
        sample_init_request None []).1
     = Raise (HTTPException 500 (lit "Failed to initialize agent: ")).
Proof. split; vm_compute; reflexivity. Qed.

(** C2 (amended): when the corpus root does not exist (or is not a
    directory) the indexing pass returns without raising and leaves the
    session not initialized and the collection untouched, whatever the
    session and the collection were before and whatever the external calls
    do. *)
Theorem missing_root_not_initialized env self db :
  (let dir := fs env (docs_path self) in
   dir_exists dir = false \/ dir_is_dir dir = false) ->
  let r := Indexer.initialize_knowledge_base env self db in
  r.1 = Ok tt /\ is_initialized r.2.1 = false /\ r.2.2 = db.
Proof.
  intros Hdir. cbv zeta in *. unfold Indexer.initialize_knowledge_base.
  destruct (get_or_create_collection_raises env); [done|].
  cbn [Indexer.set_collection docs_path].
  assert (negb (dir_exists (fs env (docs_path self)))
          || negb (dir_is_dir (fs env (docs_path self))) = true) as ->.
  { destruct Hdir as [-> | ->]; [reflexivity | apply orb_true_r]. }
  done.
Qed.

Lemma missing_root_not_initialized_witness :
  let r := Indexer.initialize_knowledge_base missing_root ready_agent [] in
  r.1 = Ok tt /\ is_initialized r.2.1 = false /\ r.2.2 = [].
Proof.
  apply (missing_root_not_initialized missing_root ready_agent []).
  left. reflexivity.
Defined.

(** ** The bounded conversation history *)

Section History.

Import Notebook.

Lemma slice_from_last {A} (l : list A) (n : Z) :
  0 < n -> n <= len l ->
  slice_from l (- n) = drop (length l - Z.to_nat n) l.
Proof.
  intros Hn Hl. unfold slice_from, len in *.
  destruct (Z.ltb_spec (- n) 0); [|lia].
  f_equal. lia.
Qed.

(** One append: below the bound the message is added at the end; at the
    bound the two oldest entries go first. *)
Lemma add_to_context_step h r c :
  _add_to_context h r c
  = (if 10 <=? len h then drop (length h - 8) h else h) ++ [Message r c].
Proof.
  unfold _add_to_context, MAX_CONTEXT_HISTORY.
  change (5 * 2 <=? len h) with (10 <=? len h).
  destruct (Z.leb_spec 10 (len h)); [|reflexivity].
  rewrite slice_from_last by lia. reflexivity.
Qed.

Lemma widget_same h r c :
  _add_to_widget_context h r c = _add_to_context h r c.
Proof. reflexivity. Qed.

Lemma add_to_context_length h r c :
  len (_add_to_context h r c) <= 2 * MAX_CONTEXT_HISTORY.
Proof.
  rewrite add_to_context_step. unfold len, MAX_CONTEXT_HISTORY.
  rewrite length_app. simpl.
  destruct (Z.leb_spec 10 (Z.of_nat (length h))).
  - rewrite length_drop. lia.
  - lia.
Qed.

Lemma add_to_context_suffix h r c all :
  h `suffix_of` all ->
  _add_to_context h r c `suffix_of` (all ++ [Message r c]).
Proof.
  intros Hs. rewrite add_to_context_step.
  apply suffix_app.
  destruct (10 <=? len h); [|exact Hs].
  etrans; [apply suffix_drop | exact Hs].
Qed.

Lemma after_appends_snoc add msgs m :
  after_appends add (msgs ++ [m])
  = add (after_appends add msgs) (role m) (content m).
Proof. unfold after_appends. by rewrite foldl_snoc. Qed.

Lemma after_appends_invariant msgs :
  let h := after_appends _add_to_context msgs in
  len h <= 2 * MAX_CONTEXT_HISTORY /\ h `suffix_of` msgs.
Proof.
  induction msgs as [|m msgs IH] using rev_ind.
  - split; [unfold len, MAX_CONTEXT_HISTORY; simpl; lia | done].
  - cbv zeta in *. rewrite after_appends_snoc. split.
    + apply add_to_context_length.
    + destruct m as [r c]. apply add_to_context_suffix, IH.
Qed.

Lemma after_appends_widget msgs :
  after_appends _add_to_widget_context msgs
  = after_appends _add_to_context msgs.
Proof. reflexivity. Qed.

End History.

(** C9: after any sequence of appends through [_add_to_context], and
    likewise through [_add_to_widget_context], the history holds at most
    [2 * MAX_CONTEXT_HISTORY] entries and is a suffix of the appended
    sequence (the entries dropped are the oldest and the others keep their
    order); an append at the bound drops the oldest entries and keeps the
    last [2 * MAX_CONTEXT_HISTORY - 2] in order, followed by the new
    message. *)
Theorem history_bounded_fifo (msgs : list Notebook.message) :
  (forall add,
      add = Notebook._add_to_context \/ add = Notebook._add_to_widget_context ->
      let h := Notebook.after_appends add msgs in
      len h <= 2 * Notebook.MAX_CONTEXT_HISTORY /\
      exists evicted, msgs = evicted ++ h) /\
  (forall add h r c,
      add = Notebook._add_to_context \/ add = Notebook._add_to_widget_context ->
      2 * Notebook.MAX_CONTEXT_HISTORY <= len h ->
      exists oldest kept,
        h = oldest ++ kept /\
        len kept = 2 * Notebook.MAX_CONTEXT_HISTORY - 2 /\
        add h r c = kept ++ [Notebook.Message r c]).
Proof.
  split.
  - intros add Hadd.
    assert (Notebook.after_appends add msgs
            = Notebook.after_appends Notebook._add_to_context msgs) as ->.
    { destruct Hadd as [-> | ->]; reflexivity. }
    destruct (after_appends_invariant msgs) as [Hlen [k Hk]].
    split; [exact Hlen|]. by exists k.
  - intros add h r c Hadd Hfull.
    assert (add h r c = Notebook._add_to_context h r c) as ->.
    { destruct Hadd as [-> | ->]; reflexivity. }
    unfold Notebook.MAX_CONTEXT_HISTORY, len in *.
    exists (take (length h - 8) h), (drop (length h - 8) h).
    split; [by rewrite take_drop|]. split.
    + rewrite length_drop. lia.
    + rewrite add_to_context_step.
      destruct (Z.leb_spec 10 (len h)); [reflexivity|].
      unfold len in *. lia.
Qed.

Lemma history_bounded_fifo_witness :
  len (Notebook.after_appends Notebook._add_to_context
         (replicate 12 (Notebook.Message (lit "user") (lit "hi"))))
  <= 2 * Notebook.MAX_CONTEXT_HISTORY.
Proof.
  exact (proj1 (proj1 (history_bounded_fifo
                         (replicate 12 (Notebook.Message (lit "user") (lit "hi"))))
                      Notebook._add_to_context (or_introl eq_refl))).
Defined.

(** ** Code extraction *)

Section Extraction.

Import Regex.

Lemma strip_prefix_Some p s r :
  strip_prefix p s = Some r <-> s = p ++ r.
Proof.
  revert s. induction p as [|a p IH]; intros s; simpl.
  - split; [by intros [= ->] | by intros ->].
  - destruct s as [|b s]; [split; [discriminate | discriminate]|].
    destruct (N.eqb_spec a b) as [-> | Hne].
    + rewrite IH. split; [by intros -> | by intros [= ->]].
    + split; [discriminate | intros [= ? _]; congruence].
Qed.

Lemma strip_prefix_None p s :
  strip_prefix p s = None <-> forall r, s <> p ++ r.
Proof.
  split.
  - intros H r Hr. apply strip_prefix_Some in Hr. congruence.
  - intros H. destruct (strip_prefix p s) as [r|] eqn:E; [|done].
    apply strip_prefix_Some in E. by destruct (H r).
Qed.

(** The lazy capture stops at the first split of [s] that the continuation
    accepts. *)
Lemma lazy_any_Some {X} (k : str -> option X) s g x :
  lazy_any k s = Some (g, x) ->
  exists r, s = g ++ r /\ k r = Some x /\
    forall g' r', s = g' ++ r' -> (length g' < length g)%nat -> k r' = None.
Proof.
  revert g. induction s as [|c s IH]; intros g; simpl.
  - destruct (k []) as [y|] eqn:E; [|discriminate].
    intros [= <- <-]. exists []. repeat split; [done|].
    intros g' r' _ Hlt. simpl in Hlt. lia.
  - destruct (k (c :: s)) as [y|] eqn:E.
    + intros [= <- <-]. exists (c :: s). repeat split; [done|].
      intros g' r' _ Hlt. simpl in Hlt. lia.
    + destruct (lazy_any k s) as [[g0 x0]|] eqn:E0; [|discriminate].
      simpl. intros [= <- <-].
      destruct (IH g0 eq_refl) as (r & -> & Hk & Hmin).
      exists r. repeat split; [done|].
      intros g' r' Hs Hlt. destruct g' as [|c' g'].
      * simpl in Hs. by subst r'.
      * simpl in Hs, Hlt. injection Hs as -> Hs.
        apply (Hmin g' r' Hs). lia.
Qed.

Lemma lazy_any_None {X} (k : str -> option X) s :
  lazy_any k s = None -> forall g r, s = g ++ r -> k r = None.
Proof.
  induction s as [|c s IH]; simpl.
  - destruct (k []) eqn:E; [discriminate|].
    intros _ g r Hs. symmetry in Hs. apply app_eq_nil in Hs as [_ ->]. done.
  - destruct (k (c :: s)) eqn:E; [discriminate|].
    destruct (lazy_any k s) as [[g0 x0]|] eqn:E0; [discriminate|].
    intros _ g r Hs. destruct g as [|c' g].
    + simpl in Hs. by subst r.
    + simpl in Hs. injection Hs as -> Hs. by apply (IH eq_refl g r).
Qed.

(** A successful match at the head of [s]: the block that starts there and
    ends first. *)
Lemma match_at_Some s g :
  match_at s = Some g ->
  exists post, s = OPEN ++ g ++ CLOSE ++ post /\
    forall inner' post', s = OPEN ++ inner' ++ CLOSE ++ post' ->
      (length g <= length inner')%nat.
Proof.
  unfold match_at.
  destruct (strip_prefix OPEN s) as [rest|] eqn:Eo; [|discriminate].
  apply strip_prefix_Some in Eo as ->. cbn [mbind option_bind].
  destruct (lazy_any (strip_prefix CLOSE) rest) as [[g0 post]|] eqn:El;
    [|discriminate].
  cbn [fmap option_fmap option_map fst]. intros [= ->].
  apply lazy_any_Some in El as (r & -> & Hk & Hmin).
  apply strip_prefix_Some in Hk as ->.
  exists post. split; [done|].
  intros inner' post' Hs. apply app_inv_head in Hs.
  destruct (decide (length inner' < length g)%nat) as [Hlt|]; [|lia].
  specialize (Hmin inner' (CLOSE ++ post') Hs Hlt).
  rewrite strip_prefix_None in Hmin. by destruct (Hmin post').
Qed.

Lemma match_at_None s :
  match_at s = None ->
  forall inner post, s <> OPEN ++ inner ++ CLOSE ++ post.
Proof.
  unfold match_at. intros H inner post ->.
  destruct (strip_prefix OPEN _) as [rest|] eqn:Eo.
  - apply strip_prefix_Some, app_inv_head in Eo as <-.
    cbn [mbind option_bind] in H.
    destruct (lazy_any _ _) as [gx|] eqn:El; [discriminate|].
    pose proof (lazy_any_None _ _ El inner (CLOSE ++ post) eq_refl) as Hk.
    rewrite strip_prefix_None in Hk. by destruct (Hk post).
  - rewrite strip_prefix_None in Eo. by destruct (Eo (inner ++ CLOSE ++ post)).
Qed.

Lemma search_Some s g :
  search s = Some g -> exists pre post, first_block s pre g post.
Proof.
  induction s as [|c s IH]; cbn [search].
  - intros H. vm_compute in H. discriminate.
  - destruct (match_at (c :: s)) as [g0|] eqn:E.
    + intros [= ->]. destruct (match_at_Some _ _ E) as (post & Hs & Hmin).
      exists [], post. split; [exact Hs|].
      intros pre' inner' post' Hb. destruct pre' as [|c' pre']; simpl; [|lia].
      right. split; [done|]. by apply (Hmin inner' post').
    + intros Hg. destruct (IH Hg) as (pre & post & Hb & Hmin).
      exists (c :: pre), post. split.
      * unfold block_at in *. by rewrite Hb.
      * intros pre' inner' post' Hb'. destruct pre' as [|c' pre'].
        -- by destruct (match_at_None _ E inner' post').
        -- unfold block_at in Hb'. cbn [app] in Hb'. injection Hb' as -> Hb'.
           destruct (Hmin pre' inner' post' Hb'); simpl; lia.
Qed.

Lemma search_None s : search s = None -> ~ has_block s.
Proof.
  induction s as [|c s IH]; cbn [search].
  - destruct (match_at []) eqn:E; [discriminate|].
    intros _ (pre & inner & post & Hb). unfold block_at in Hb.
    destruct pre as [|c' pre]; [|discriminate].
    by destruct (match_at_None _ E inner post).
  - destruct (match_at (c :: s)) eqn:E; [discriminate|].
    intros Hs (pre & inner & post & Hb). unfold block_at in Hb.
    destruct pre as [|c' pre].
    + by destruct (match_at_None _ E inner post).
    + cbn [app] in Hb. injection Hb as -> Hb.
      apply (IH Hs). by exists pre, inner, post.
Qed.

Lemma first_block_unique text pre inner post pre' inner' post' :
  first_block text pre inner post -> first_block text pre' inner' post' ->
  inner = inner'.
Proof.
  intros [Hb Hmin] [Hb' Hmin'].
  destruct (Hmin _ _ _ Hb') as [?|[Hp Hi]], (Hmin' _ _ _ Hb) as [?|[Hp' Hi']];
    try lia.
  unfold block_at in *. rewrite Hb in Hb'.
  apply app_inj_1 in Hb' as [_ Hb']; [|done].
  apply app_inv_head in Hb'.
  apply app_inj_1 in Hb' as [Hb' _]; [done | lia].
Qed.

End Extraction.

Section StripFacts.

Lemma lstrip_spec s :
  exists blanks, s = blanks ++ lstrip s /\
    Forall (fun c => isspace c = true) blanks /\
    (lstrip s = [] \/ exists c r, lstrip s = c :: r /\ isspace c = false).
Proof.
  induction s as [|c s (blanks & Hs & Hb & Hh)]; [by exists []; auto|].
  simpl. destruct (isspace c) eqn:Hc.
  - exists (c :: blanks). split; [by rewrite Hs at 1|]. split; [by constructor | done].
  - exists []. split; [done|]. split; [constructor|]. right. by exists c, s.
Qed.

Lemma lstrip_id s :
  (s = [] \/ exists c r, s = c :: r /\ isspace c = false) -> lstrip s = s.
Proof. intros [-> | (c & r & -> & Hc)]; [done|]. simpl. by rewrite Hc. Qed.

(** The shape of a stripped string: it sits inside the string between two
    runs of whitespace, and neither starts nor ends with whitespace. *)
Lemma strip_spec s :
  exists before after,
    s = before ++ strip s ++ after /\
    (strip s = [] \/
     (exists c r, strip s = c :: r /\ isspace c = false) /\
     (exists r c, strip s = r ++ [c] /\ isspace c = false)).
Proof.
  unfold strip, rstrip.
  destruct (lstrip_spec s) as (before & Hs & _ & Hhead).
  destruct (lstrip_spec (reverse (lstrip s))) as (blanks & Hr & _ & Hlast).
  remember (lstrip s) as u eqn:Hequ.
  remember (lstrip (reverse u)) as v eqn:Heqv.
  assert (Hu : u = reverse v ++ reverse blanks).
  { apply (f_equal reverse) in Hr.
    by rewrite reverse_involutive, reverse_app in Hr. }
  exists before, (reverse blanks). split; [by rewrite Hs, Hu|].
  destruct Hlast as [Hv | (c & r & Hv & Hc)]; [left; by rewrite Hv|].
  right. rewrite Hv, reverse_cons in Hu. rewrite Hv, reverse_cons. split.
  - destruct Hhead as [Hnil | (c' & r' & Hu' & Hc')].
    { rewrite Hnil in Hu. symmetry in Hu. apply app_eq_nil in Hu as [Hrv _].
      by apply app_eq_nil in Hrv as [_ ?]. }
    rewrite Hu' in Hu.
    destruct (reverse r) as [|x xs]; simpl in Hu; injection Hu as <- _.
    + by exists c', [].
    + by exists c', (xs ++ [c]).
  - by exists (reverse r), c.
Qed.


Lemma lstrip_app_blanks blanks s :
  Forall (fun c => isspace c = true) blanks -> lstrip (blanks ++ s) = lstrip s.
Proof. induction 1 as [|c blanks Hc _ IH]; [done|]. simpl. by rewrite Hc. Qed.

(** [trimmed] determines the code: it is what [strip] returns and nothing
    else. *)
Lemma trimmed_strip s code : trimmed s code -> code = strip s.
Proof.
  intros (before & after & -> & Hb & Ha & Hhead & Hlast).
  unfold strip, rstrip. rewrite lstrip_app_blanks by done.
  destruct code as [|c rest].
  - cbn [app]. rewrite <- (app_nil_r after), lstrip_app_blanks by done.
    reflexivity.
  - rewrite (lstrip_id ((c :: rest) ++ after))
      by (right; exists c, (rest ++ after); split; [done | by apply (Hhead c rest)]).
    rewrite reverse_app, lstrip_app_blanks by by apply Forall_reverse.
    destruct (exists_last (l := c :: rest)) as (front & x & Hx); [done|].
    rewrite Hx, reverse_snoc.
    rewrite lstrip_id
      by (right; exists x, (reverse front); split; [done | by apply (Hlast front x)]).
    by rewrite reverse_cons, reverse_involutive.
Qed.

Lemma strip_idempotent s : strip (strip s) = strip s.
Proof.
  destruct (strip_spec s) as (_ & _ & _ & [Hnil | [Hhead Hlast]]).
  - by rewrite Hnil.
  - unfold strip at 1, rstrip. rewrite (lstrip_id (strip s)) by by right.
    destruct Hlast as (r & c & Hs & Hc).
    rewrite (lstrip_id (reverse (strip s))).
    + by rewrite reverse_involutive.
    + right. exists c, (reverse r). by rewrite Hs, reverse_snoc.
Qed.

End StripFacts.

Section Refencing.

Import Regex.

(** The closing fence cannot start inside [code] and end in the closing
    fence that follows it. *)
Lemma close_inside code g r :
  code ++ CLOSE = g ++ CLOSE ++ r -> (length g < length code)%nat ->
  occurs_in CLOSE code.
Proof.
  intros Heq Hlt.
  assert (Hpre : exists x, code = g ++ x /\ x <> []).
  { exists (drop (length g) code).
    assert (take (length g) (code ++ CLOSE) = g) as Htake
      by (rewrite Heq; apply take_app_length).
    rewrite take_app_le in Htake by lia.
    split; [by rewrite <- Htake at 1; rewrite take_drop|].
    intros Hnil. apply (f_equal length) in Hnil.
    rewrite length_drop in Hnil. simpl in Hnil. lia. }
  destruct Hpre as (x & -> & Hx). rewrite <- app_assoc in Heq.
  apply app_inv_head in Heq.
  change CLOSE with [10; 96; 96; 96]%N in *.
  destruct x as [|a [|b [|c [|d x]]]]; try done; try discriminate.
  injection Heq as -> -> -> -> _. by exists g, x.
Qed.


Lemma first_block_inner_closed text pre inner post :
  first_block text pre inner post -> ~ occurs_in CLOSE inner.
Proof.
  intros [Hb Hmin] (g & r & ->).
  destruct (Hmin pre g (r ++ CLOSE ++ post)) as [?|[_ Hlen]]; [|lia|].
  - unfold block_at in *. rewrite Hb. by rewrite <- !app_assoc.
  - rewrite !length_app in Hlen. change (length CLOSE) with 4%nat in Hlen. lia.
Qed.

Lemma extract_of_first_block text pre inner post :
  first_block text pre inner post ->
  extract_python_code text = Some (strip inner).
Proof.
  intros Hfb. unfold extract_python_code.
  destruct (search text) as [g|] eqn:E.
  - destruct (search_Some _ _ E) as (pre' & post' & Hfb').
    cbn [fmap option_fmap option_map]. do 2 f_equal.
    eapply first_block_unique; [exact Hfb' | exact Hfb].
  - destruct (search_None _ E). destruct Hfb as [Hb _].
    by exists pre, inner, post.
Qed.

Lemma refenced_first_block code :
  ~ occurs_in CLOSE code -> first_block (OPEN ++ code ++ CLOSE) [] code [].
Proof.
  intros Hclosed. split; [unfold block_at; by rewrite app_nil_r|].
  intros pre' inner' post' Hb. destruct pre' as [|c pre']; [|left; simpl; lia].
  right. split; [done|]. unfold block_at in Hb. cbn [app] in Hb.
  apply app_inv_head in Hb.
  destruct (decide (length inner' < length code)%nat) as [Hlt|]; [|lia].
  destruct Hclosed. by apply (close_inside code inner' post').
Qed.

End Refencing.




(** ** The chunker *)

(** C1: [_split_text] does not return for every overlap: with an overlap
    below 5 the slice [words[:overlap//5]] is empty, its join has length
    zero, and the first chunk boundary divides by it.  Here the text is
    "ab cd", [max_chunk_size] is 3 and [overlap] is 0. *)
Theorem split_text_zero_overlap_raises :
  Chunker._split_text (lit "ab cd") 3 0 = Raise ZeroDivisionError.
Proof. vm_compute. reflexivity. Qed.

Section SplitJoin.

Lemma split_from_word w cur s :
  Forall (fun c => isspace c = false) w ->
  split_from cur (w ++ s) = split_from (cur ++ w) s.
Proof.
  revert cur. induction w as [|c w IH]; intros cur Hw; simpl.
  - by rewrite app_nil_r.
  - inversion Hw as [|? ? Hc Hw']; subst. rewrite Hc, IH by done.
    by rewrite <- app_assoc.
Qed.

Lemma split_from_ok cur s :
  Forall (fun c => isspace c = false) cur ->
  Forall word_ok (split_from cur s).
Proof.
  revert cur. induction s as [|c s IH]; intros cur Hcur; simpl.
  - destruct cur; [constructor|].
    constructor; [by split | constructor].
  - destruct (isspace c) eqn:Hc.
    + destruct cur; [by apply IH|].
      constructor; [by split | by apply IH].
    + apply IH. apply Forall_app. split; [done|]. by constructor.
Qed.

Lemma py_split_ok s : Forall word_ok (py_split s).
Proof. by apply split_from_ok. Qed.

(** Splitting the join of well-formed words gives the words back. *)
Lemma py_split_join ws :
  Forall word_ok ws -> py_split (join SP ws) = ws.
Proof.
  unfold py_split. induction ws as [|w ws IH]; intros Hws; [done|].
  inversion Hws as [|? ? [Hne Hw] Hws']; subst.
  destruct ws as [|w' ws].
  - simpl. rewrite <- (app_nil_r w) at 1. rewrite split_from_word by done.
    simpl. by destruct w.
  - change (join SP (w :: w' :: ws)) with (w ++ SP ++ join SP (w' :: ws)).
    rewrite split_from_word by done. unfold SP at 1.
    cbn [app split_from]. change (isspace 32) with true. cbv iota.
    rewrite IH by done. by destruct w.
Qed.

Lemma join_cons2 sep (x y : str) (l : list str) :
  join sep (x :: y :: l) = x ++ sep ++ join sep (y :: l).
Proof. reflexivity. Qed.

Lemma join_snoc_len (cur : list str) (w : str) :
  len (join SP (cur ++ [w])) <= len (join SP cur) + len w + 1.
Proof.
  unfold len. induction cur as [|x cur IH].
  - simpl. lia.
  - destruct cur as [|y cur].
    + cbn [app]. rewrite join_cons2. cbn [join].
      rewrite !length_app. simpl. lia.
    + change ((x :: y :: cur) ++ [w]) with (x :: y :: (cur ++ [w])).
      change ((y :: cur) ++ [w]) with (y :: (cur ++ [w])) in IH.
      rewrite !join_cons2 in *. rewrite !length_app in *. lia.
Qed.

End SplitJoin.

Section ChunkerInvariant.

Import Chunker.

Lemma overlap_chain_app prev l1 l2 :
  overlap_chain prev (l1 ++ l2)
  <-> overlap_chain prev l1 /\ overlap_chain (last_words prev l1) l2.
Proof.
  revert prev. induction l1 as [|kc l1 IH]; intros prev; simpl.
  - tauto.
  - rewrite IH. tauto.
Qed.

Lemma last_words_snoc prev l kc : last_words prev (l ++ [kc]) = kc.2.
Proof. revert prev. induction l as [|x l IH]; intros prev; simpl; auto. Qed.

Lemma fresh_words_snoc l kc :
  fresh_words (l ++ [kc]) = fresh_words l ++ drop kc.1 kc.2.
Proof.
  unfold fresh_words. rewrite fmap_app, concat_app. simpl.
  by rewrite app_nil_r.
Qed.

Lemma split_inv_init max_chunk_size :
  split_inv max_chunk_size [] (State [] [] 0) [] 0.
Proof.
  constructor; simpl; try done.
  - apply Forall_singleton. right. simpl. lia.
  - apply Forall_singleton. constructor.
Qed.

(** With an overlap of at least 5 the divisor of the overlap arithmetic is
    the length of a text that starts with the first word. *)
Lemma divisor_nonzero words overlap :
  Forall word_ok words -> words <> [] -> 5 <= overlap ->
  len (join SP (slice_to words (overlap / 5))) <> 0.
Proof.
  intros Hok Hne Hov.
  assert (1 <= overlap / 5) as Hq by (apply Z.div_le_lower_bound; lia).
  unfold slice_to. destruct (Z.ltb_spec (overlap / 5) 0); [lia|].
  destruct words as [|w ws]; [done|].
  destruct (Z.to_nat (overlap / 5)) as [|n] eqn:En; [lia|].
  inversion Hok as [|? ? [Hw _] _]; subst.
  cbn [take firstn]. unfold len.
  destruct (take n ws) as [|y l]; [|rewrite join_cons2, length_app];
    destruct w; simpl in *; try done; lia.
Qed.

Lemma for_each_snoc {S X} (f : S -> X -> Exc S) xs x st :
  for_each f (xs ++ [x]) st = (st' ← for_each f xs st; f st' x).
Proof.
  revert st. induction xs as [|y xs IH]; intros st; simpl.
  - by destruct (f st x).
  - destruct (f st y) as [st1|e]; simpl; [apply IH | done].
Qed.

Lemma step_inv words max_chunk_size overlap st w seen kcs k :
  len (join SP (slice_to words (overlap / 5))) <> 0 -> words <> [] ->
  word_ok w ->
  split_inv max_chunk_size seen st kcs k ->
  exists st' kcs' k',
    step words max_chunk_size overlap st w = Ok st' /\
    split_inv max_chunk_size (seen ++ [w]) st' kcs' k'.
Proof.
  intros Hdiv Hne Hw [Hchunks Hchain Hfresh Hbound Hwords Hk Hlen].
  destruct st as [chs cur cl]. simpl in *.
  apply overlap_chain_app in Hchain as [Hchain0 (HkL & Htake & _)].
  apply Forall_app in Hbound as [Hbound0 Hbound1].
  apply Forall_app in Hwords as [Hwords0 Hwords1].
  rewrite Forall_singleton in Hwords1. simpl in Hwords1, HkL, Htake.
  rewrite fresh_words_snoc in Hfresh. simpl in Hfresh.
  unfold step. simpl.
  destruct (Z.leb_spec (cl + len w + 1) max_chunk_size) as [Hfit|Hfull].
  - exists (State chs (cur ++ [w]) (cl + len w + 1)), kcs, k.
    split; [done|].
    pose proof (join_snoc_len cur w) as Hj.
    constructor; simpl.
    + done.
    + apply overlap_chain_app. split; [done|]. simpl.
      rewrite take_app_le by done. done.
    + rewrite fresh_words_snoc. simpl. rewrite drop_app_le by done.
      by rewrite app_assoc, Hfresh.
    + apply Forall_app. split; [done|]. constructor; [|constructor].
      left. unfold chunk_text. simpl. lia.
    + apply Forall_app. split; [done|]. constructor; [|constructor].
      simpl. apply Forall_app. split; [done|]. by constructor.
    + rewrite length_app. simpl. lia.
    + lia.
  - unfold overlap_start_index.
    destruct words as [|w0 ws0] eqn:Ewords; [done|]. rewrite <- Ewords in *.
    unfold floordiv.
    destruct (Z.eqb_spec (len (join SP (slice_to words (overlap / 5)))) 0)
      as [|_]; [done|].
    simpl.
    set (i := Z.max 0 _).
    assert (0 <= i) as Hi by (unfold i; lia).
    unfold slice_from. destruct (Z.ltb_spec i 0) as [|_]; [lia|].
    set (n := Z.to_nat i). set (d := drop n cur).
    exists (State (chs ++ [join SP cur]) (d ++ [w]) (len (join SP (d ++ [w])))),
           (kcs ++ [(k, cur)]), (length d).
    split; [done|].
    constructor; simpl.
    + rewrite fmap_app, Hchunks. done.
    + apply overlap_chain_app. split.
      * apply overlap_chain_app. by split.
      * rewrite last_words_snoc. simpl. unfold d.
        rewrite length_drop. split; [lia|]. split; [|done].
        rewrite <- length_drop. fold d. rewrite take_app_length.
        unfold d. rewrite length_drop.
        destruct (decide (n <= length cur)%nat).
        -- f_equal. lia.
        -- rewrite !drop_ge by lia. done.
    + rewrite !fresh_words_snoc. simpl. rewrite drop_app_length.
      by rewrite Hfresh.
    + apply Forall_app. split; [apply Forall_app; by split|].
      constructor; [|constructor]. right. simpl.
      rewrite length_app. simpl. lia.
    + apply Forall_app. split.
      * apply Forall_app. split; [done|]. by constructor.
      * constructor; [|constructor]. simpl. apply Forall_app.
        split; [by apply Forall_drop | by constructor].
    + rewrite length_app. lia.
    + lia.
Qed.

Lemma for_each_inv words max_chunk_size overlap ws :
  len (join SP (slice_to words (overlap / 5))) <> 0 -> words <> [] ->
  Forall word_ok ws ->
  exists st kcs k,
    for_each (step words max_chunk_size overlap) ws (State [] [] 0) = Ok st /\
    split_inv max_chunk_size ws st kcs k.
Proof.
  intros Hdiv Hne. induction ws as [|w ws IH] using rev_ind; intros Hws.
  - exists (State [] [] 0), [], 0%nat. split; [done | apply split_inv_init].
  - apply Forall_app in Hws as [Hws Hw]. rewrite Forall_singleton in Hw.
    destruct (IH Hws) as (st & kcs & k & Hrun & Hinv).
    destruct (step_inv words max_chunk_size overlap st w ws kcs k
                Hdiv Hne Hw Hinv) as (st' & kcs' & k' & Hstep & Hinv').
    exists st', kcs', k'. split; [|done].
    rewrite for_each_snoc, Hrun. exact Hstep.
Qed.

End ChunkerInvariant.

(** C5 (as stated, refuted): for the text "a bbbb cccc" with
    [max_chunk_size] 5 and [overlap] 5 the chunks are "a", "a bbbb" and
    "a bbbb cccc"; the last one has 11 characters, more than
    [max_chunk_size] plus the length of any word of the text. *)
Lemma chunk_exceeds_one_word :
  exists chunks c,
    Chunker._split_text (lit "a bbbb cccc") 5 5 = Ok chunks /\
    c ∈ chunks /\
    forall w, w ∈ py_split (lit "a bbbb cccc") -> 5 + len w < len c.
Proof.
  exists [lit "a"; lit "a bbbb"; lit "a bbbb cccc"], (lit "a bbbb cccc").
  split; [vm_compute; reflexivity|]. split.
  - do 2 apply list_elem_of_further. apply list_elem_of_here.
  - intros w Hw. vm_compute in Hw.
    repeat (apply elem_of_cons in Hw as [-> | Hw]; [vm_compute; reflexivity|]).
    by apply elem_of_nil in Hw.
Qed.

(** The same growth with the defaults of the signature: forty one-letter
    words followed by three words of 900 letters give chunks of 980, 1803
    and 2702 characters. *)
Example chunks_grow_with_defaults :
  (fun r => match r with Ok l => Some (length <$> l) | Raise _ => None end)
    (Chunker._split_text
       (join SP (replicate 40 (lit "a") ++ replicate 3 (replicate 900 98%N)))
       Chunker.default_max_chunk_size Chunker.default_overlap)
  = Some [980; 1803; 2702]%nat.
Proof. vm_compute. reflexivity. Qed.

(** C5 (amended): with an overlap of at least 5, [_split_text] returns
    chunks that are the joins of word lists such that: each chunk starts
    with words carried over from the end of the chunk before it; the
    words of the chunks without the carried-over ones, concatenated, are
    the words of the text in order; and every chunk either is within
    [max_chunk_size] or holds at most one word that is not carried
    over. *)
Theorem split_text_reconstructs text max_chunk_size overlap :
  5 <= overlap ->
  exists kcs : list (nat * list str),
    Chunker._split_text text max_chunk_size overlap = Ok (chunk_text <$> kcs) /\
    Forall (fun kc => py_split (chunk_text kc) = kc.2) kcs /\
    overlap_chain [] kcs /\
    fresh_words kcs = py_split text /\
    Forall (chunk_bounded max_chunk_size) kcs.
Proof.
  intros Hov. unfold Chunker._split_text.
  destruct text as [|c text]; [by exists []|].
  remember (c :: text) as t eqn:Et. clear Et c text.
  pose proof (py_split_ok t) as Hok.
  destruct (py_split t) as [|w ws] eqn:Ews; [by exists []|].
  rewrite <- Ews in *.
  assert (py_split t <> []) as Hne by (rewrite Ews; done).
  destruct (for_each_inv (py_split t) max_chunk_size overlap (py_split t)
              (divisor_nonzero _ _ Hok Hne Hov) Hne Hok)
    as (st & kcs & k & Hrun & [Hchunks Hchain Hfresh Hbound Hwords Hk Hlen]).
  rewrite Hrun. simpl. unfold Chunker.finish.
  destruct (Chunker.current_chunk st) as [|x cur] eqn:Ecur.
  - exists kcs.
    apply overlap_chain_app in Hchain as [Hchain _].
    apply Forall_app in Hbound as [Hbound _].
    apply Forall_app in Hwords as [Hwords _].
    rewrite fresh_words_snoc in Hfresh. simpl in Hfresh.
    rewrite drop_nil, app_nil_r in Hfresh.
    repeat split; try done.
    + by rewrite Hchunks.
    + eapply Forall_impl; [exact Hwords|]. intros kc. apply py_split_join.
  - exists (kcs ++ [(k, x :: cur)]).
    repeat split; try done.
    + by rewrite fmap_app, Hchunks.
    + eapply Forall_impl; [exact Hwords|]. intros kc. apply py_split_join.
Qed.

Lemma split_text_reconstructs_witness :
  5 <= 5 /\
  exists kcs : list (nat * list str),
    Chunker._split_text (lit "a bbbb cccc") 5 5 = Ok (chunk_text <$> kcs) /\
    Forall (fun kc => py_split (chunk_text kc) = kc.2) kcs /\
    overlap_chain [] kcs /\
    fresh_words kcs = py_split (lit "a bbbb cccc") /\
    Forall (chunk_bounded 5) kcs.
Proof.
  split; [lia|].
  apply (split_text_reconstructs (lit "a bbbb cccc") 5 5). lia.
Defined.

(** ** The indexer *)

Section IndexerFacts.

Import Indexer.

Lemma new_records_filter (E : gset (list N)) f file_chunks :
  new_records E f file_chunks
  = filter (fun r => Chroma.rec_id r ∉ E) (new_records ∅ f file_chunks).
Proof.
  unfold new_records. induction (imap pair file_chunks) as [|ic l IH]; [done|].
  cbn [omap list_omap]. rewrite IH.
  destruct (decide (doc_id f ic.1 ∈ (∅ : gset (list N)))) as [H|_];
    [by apply not_elem_of_empty in H|].
  destruct (decide (doc_id f ic.1 ∈ E)) as [Hin|Hout].
  - by rewrite filter_cons_False by (simpl; auto).
  - by rewrite filter_cons_True by done.
Qed.

Lemma process_file_acc E acc f :
  process_file E acc f = acc ++ process_file E [] f.
Proof.
  unfold process_file.
  destruct (plain_text f) as [t|e]; simpl; [|by rewrite app_nil_r].
  destruct (Chunker._split_text t _ _) as [cs|e]; simpl;
    [done | by rewrite app_nil_r].
Qed.

Lemma process_file_filter E f :
  process_file E [] f
  = filter (fun r => Chroma.rec_id r ∉ E) (process_file ∅ [] f).
Proof.
  unfold process_file.
  destruct (plain_text f) as [t|e]; simpl; [|done].
  destruct (Chunker._split_text t _ _) as [cs|e]; simpl; [|done].
  apply new_records_filter.
Qed.

Lemma foldl_process_filter E files :
  foldl (process_file E) [] files
  = filter (fun r => Chroma.rec_id r ∉ E) (corpus_records files).
Proof.
  unfold corpus_records.
  induction files as [|f files IH] using rev_ind; [done|].
  rewrite !foldl_snoc.
  rewrite (process_file_acc E), (process_file_acc ∅), filter_app, IH.
  by rewrite <- process_file_filter.
Qed.

Lemma existing_ids_fetched env db :
  collection_get_raises env = false ->
  existing_ids env db = list_to_set (Chroma.ids db).
Proof.
  intros Hget. unfold existing_ids. rewrite Hget.
  destruct (Z.ltb_spec 0 (Chroma.count db)); [done|].
  destruct db; [done|]. unfold Chroma.count, len in *. simpl in *. lia.
Qed.

(** When the fetch of the stored ids succeeds, the batch is the corpus
    without the chunks whose id is stored. *)
Lemma to_add_fetched env files db :
  collection_get_raises env = false ->
  to_add env files db
  = filter (fun r => Chroma.rec_id r ∉ Chroma.ids db) (corpus_records files).
Proof.
  intros Hget. unfold to_add.
  rewrite foldl_process_filter, (existing_ids_fetched _ _ Hget).
  apply list_filter_iff. intros r. by rewrite elem_of_list_to_set.
Qed.

Lemma NoDup_ids_filter (P : Chroma.record -> Prop) `{!forall r, Decision (P r)}
    (l : list Chroma.record) :
  NoDup (Chroma.ids l) -> NoDup (Chroma.ids (filter P l)).
Proof.
  unfold Chroma.ids. induction l as [|r l IH]; [done|].
  rewrite fmap_cons, NoDup_cons. intros [Hr Hl].
  rewrite filter_cons. destruct (decide (P r)); [|by apply IH].
  rewrite fmap_cons, NoDup_cons. split; [|by apply IH].
  intros Hin. apply Hr.
  apply list_elem_of_fmap in Hin as (x & -> & Hx).
  apply list_elem_of_filter in Hx as [_ Hx].
  by apply list_elem_of_fmap_2.
Qed.

(** The collection never comes to hold one id twice. *)
Lemma add_NoDup db batch db' :
  NoDup (Chroma.ids db) -> Chroma.add db batch = Ok db' ->
  NoDup (Chroma.ids db').
Proof.
  intros Hdb. unfold Chroma.add. destruct batch as [|b batch]; [done|].
  case_bool_decide as Hb; [|done]. intros [= <-].
  unfold Chroma.ids at 1. rewrite fmap_app. apply NoDup_app.
  split; [done|]. split.
  - intros id Hid Hin.
    apply list_elem_of_fmap in Hin as (r & -> & Hr).
    by apply list_elem_of_filter in Hr as [Hr _].
  - by apply NoDup_ids_filter.
Qed.

Lemma store_NoDup env batch db :
  NoDup (Chroma.ids db) -> NoDup (Chroma.ids (store env batch db)).
Proof.
  intros Hdb. unfold store. destruct batch as [|b batch]; [done|].
  destruct (collection_add_raises env); [done|].
  destruct (Chroma.add db (b :: batch)) as [db'|e] eqn:E; simpl; [|done].
  by eapply add_NoDup.
Qed.

Lemma filter_all {A} (P : A -> Prop) `{!forall x, Decision (P x)} (l : list A) :
  Forall P l -> filter P l = l.
Proof.
  induction 1 as [|x l Hx _ IH]; [done|].
  by rewrite filter_cons_True, IH.
Qed.

Lemma filter_none {A} (P : A -> Prop) `{!forall x, Decision (P x)} (l : list A) :
  Forall (fun x => ~ P x) l -> filter P l = [].
Proof.
  induction 1 as [|x l Hx _ IH]; [done|].
  by rewrite filter_cons_False.
Qed.

(** After a pass that stored its batch, the batch of the next pass is
    empty and the storage call is not made; after a pass whose batch was
    rejected, the same batch is rejected again. *)
Lemma store_twice env1 env2 C db :
  collection_add_raises env1 = false ->
  let fresh db := filter (fun r => Chroma.rec_id r ∉ Chroma.ids db) C in
  let db1 := store env1 (fresh db) db in
  store env2 (fresh db1) db1 = db1.
Proof.
  intros Hadd fresh. cbv zeta.
  assert (Hfresh : Forall (fun r => Chroma.rec_id r ∉ Chroma.ids db) (fresh db)).
  { apply Forall_forall. intros r Hr.
    by apply list_elem_of_filter in Hr as [Hr _]. }
  destruct (fresh db) as [|b B] eqn:EB.
  - change (store env1 [] db) with db. unfold store. by rewrite EB.
  - assert (store env1 (b :: B) db = try_or (Chroma.add db (b :: B)) db) as ->.
    { unfold store. by rewrite Hadd. }
    unfold Chroma.add.
    case_bool_decide as Hnd; cbn [try_or].
    + rewrite (filter_all _ _ Hfresh).
      assert (fresh (db ++ b :: B) = []) as ->; [|done].
      apply filter_none, Forall_forall. intros r Hr Hout.
      apply Hout. unfold Chroma.ids. rewrite fmap_app.
      apply elem_of_app.
      destruct (decide (Chroma.rec_id r ∈ Chroma.ids db)) as [Hin|Hnin];
        [by left|right].
      apply list_elem_of_fmap_2. rewrite <- EB.
      by apply list_elem_of_filter.
    + unfold store. rewrite EB.
      destruct (collection_add_raises env2); [done|].
      unfold Chroma.add. by rewrite bool_decide_eq_false_2.
Qed.

End IndexerFacts.

Lemma pass_collection env self db :
  (Indexer.initialize_knowledge_base env self db).2.2
  = let dir := fs env (docs_path self) in
    if get_or_create_collection_raises env
       || negb (dir_exists dir) || negb (dir_is_dir dir)
       || collection_count_raises env
    then db
    else Indexer.store env (Indexer.to_add env (dir_rglob_md dir) db) db.
Proof.
  unfold Indexer.initialize_knowledge_base, Indexer.collection_count. cbv zeta.
  destruct (get_or_create_collection_raises env); [done|].
  cbn [orb Indexer.set_collection docs_path].
  destruct (negb (dir_exists _) || negb (dir_is_dir _)); [done|]. cbn [orb].
  destruct (dir_rglob_md _); [by destruct (collection_count_raises env)|].
  by destruct (collection_count_raises env).
Qed.

(** C6 (as stated, refuted): over the one-file corpus [guide.md], (1) a
    second pass whose fetch of the stored ids raises puts the chunk
    [guide_0], already stored by the first pass, into its batch again; and
    (2) when the storage call of the first pass raises and that of the
    second does not, the document count goes from 0 after the first pass
    to 1 after the second. *)
Lemma reindex_with_failing_calls :
  (let db1 := (Indexer.initialize_knowledge_base (one_file false false)
                 fresh_agent []).2.2 in
   exists r, r ∈ Indexer.to_add (one_file true false) [guide] db1 /\
             Chroma.rec_id r ∈ Chroma.ids db1) /\
  (let db1 := (Indexer.initialize_knowledge_base (one_file false true)
                 fresh_agent []).2.2 in
   let db2 := (Indexer.initialize_knowledge_base (one_file false false)
                 fresh_agent db1).2.2 in
   Chroma.count db1 = 0 /\ Chroma.count db2 = 1).
Proof.
  split.
  - exists (Chroma.Record_ (lit "guide_0") (lit "hello world") (lit "guide.md")).
    split; vm_compute; apply list_elem_of_here.
  - split; vm_compute; reflexivity.
Qed.

(** C6 (amended): when no external call of the first pass raises and the
    fetch of the stored ids succeeds in the second pass, a second pass over
    the same corpus leaves the collection as the first pass left it, so
    the document count is unchanged and no id is stored twice; every chunk
    whose id is already stored is skipped when the second batch is
    prepared. *)
Theorem reindex_idempotent env1 env2 self1 self2 db :
  fs env1 = fs env2 -> docs_path self1 = docs_path self2 ->
  faultless env1 -> collection_get_raises env2 = false ->
  NoDup (Chroma.ids db) ->
  let db1 := (Indexer.initialize_knowledge_base env1 self1 db).2.2 in
  let db2 := (Indexer.initialize_knowledge_base env2 self2 db1).2.2 in
  db2 = db1 /\
  Chroma.count db2 = Chroma.count db1 /\
  NoDup (Chroma.ids db2) /\
  forall r,
    r ∈ Indexer.to_add env2 (dir_rglob_md (fs env2 (docs_path self2))) db1 ->
    Chroma.rec_id r ∉ Chroma.ids db1.
Proof.
  intros Hfs Hpath (Hopen & Hcount1 & Hget1 & Hadd1) Hget2 Hdb. cbv zeta.
  set (db1 := (Indexer.initialize_knowledge_base env1 self1 db).2.2).
  assert (Hnd1 : NoDup (Chroma.ids db1)).
  { unfold db1. rewrite pass_collection. cbv zeta.
    destruct (_ || _ || _ || _); [done | by apply store_NoDup]. }
  assert (Hsame : (Indexer.initialize_knowledge_base env2 self2 db1).2.2 = db1).
  { rewrite pass_collection. cbv zeta.
    destruct (get_or_create_collection_raises env2); [done|]. cbn [orb].
    unfold db1. rewrite pass_collection. cbv zeta.
    rewrite Hopen, Hcount1, <- Hfs, <- Hpath. cbn [orb].
    destruct (negb (dir_exists _) || negb (dir_is_dir _)) eqn:Edir; [done|].
    cbn [orb].
    destruct (collection_count_raises env2); [done|].
    rewrite !(to_add_fetched env2) by done.
    rewrite (to_add_fetched env1) by done.
    by apply store_twice. }
  rewrite Hsame. repeat split; try done.
  intros r Hr. rewrite to_add_fetched in Hr by done.
  by apply list_elem_of_filter in Hr as [Hr _].
Qed.

Lemma reindex_idempotent_witness :
  let db1 := (Indexer.initialize_knowledge_base (one_file false false)
                fresh_agent []).2.2 in
  (Indexer.initialize_knowledge_base (one_file false false) fresh_agent db1).2.2
  = db1.
Proof.
  refine (proj1 (reindex_idempotent (one_file false false) (one_file false false)
                   fresh_agent fresh_agent [] eq_refl eq_refl _ eq_refl _)).
  - repeat split.
  - constructor.
Defined.

(* ===================================================================== *)
(** * Further properties *)
(* ===================================================================== *)

(** ** Whole exchanges in the notebook history *)

Section Exchanges.

Import Notebook.

Lemma exchange_messages_app es1 es2 :
  exchange_messages (es1 ++ es2) = exchange_messages es1 ++ exchange_messages es2.
Proof. unfold exchange_messages. apply bind_app. Qed.

Lemma exchange_messages_length es :
  length (exchange_messages es) = (2 * length es)%nat.
Proof.
  induction es as [|e es IH]; [done|].
  change (e :: es) with ([e] ++ es). rewrite exchange_messages_app, length_app, IH.
  simpl. lia.
Qed.

Lemma last_five_snoc {A} (es : list A) x :
  drop (length (es ++ [x]) - 5) (es ++ [x])
  = let kept := drop (length es - 5) es in
    drop (length (kept ++ [x]) - 5) (kept ++ [x]).
Proof.
  cbv zeta. rewrite !length_app, length_drop. simpl.
  destruct (decide (length es <= 5)%nat) as [Hle|Hgt].
  - replace (length es - 5)%nat with 0%nat by lia. simpl.
    f_equal. lia.
  - replace (length es - (length es - 5) + 1 - 5)%nat with 1%nat by lia.
    rewrite (drop_app_le (drop _ _)) by (rewrite length_drop; lia).
    rewrite drop_drop, drop_app_le by lia. do 2 f_equal. lia.
Qed.

(** One exchange added to a history of at most five whole exchanges. *)
Lemma exchange_step es q a :
  (length es <= 5)%nat ->
  _add_to_context (_add_to_context (exchange_messages es) (lit "user") q)
                  (lit "assistant") a
  = exchange_messages (drop (length (es ++ [(q, a)]) - 5) (es ++ [(q, a)])).
Proof.
  intros Hle.
  pose proof (exchange_messages_length es) as Hl.
  rewrite (add_to_context_step (exchange_messages es)).
  destruct (Z.leb_spec 10 (len (exchange_messages es))) as [Hfull|Hroom];
    unfold len in *.
  - destruct es as [|e es]; [simpl in *; lia|].
    assert (length es = 4%nat) as H4 by (simpl in *; lia).
    rewrite Hl. replace (2 * length (e :: es) - 8)%nat with 2%nat
      by (simpl; lia).
    change (drop 2 (exchange_messages (e :: es))) with (exchange_messages es).
    rewrite add_to_context_step.
    destruct (Z.leb_spec 10 (len (exchange_messages es ++
                                  [Message (lit "user") q]))) as [Hbad|_].
    { unfold len in Hbad.
      rewrite length_app, exchange_messages_length in Hbad. simpl in Hbad. lia. }
    rewrite length_app. simpl length.
    replace (S (length es) + 1 - 5)%nat with 1%nat by lia.
    change (drop 1 ((e :: es) ++ [(q, a)])) with (es ++ [(q, a)]).
    rewrite exchange_messages_app. by rewrite <- app_assoc.
  - rewrite add_to_context_step.
    destruct (Z.leb_spec 10 (len (exchange_messages es ++
                                  [Message (lit "user") q]))) as [Hbad|_].
    { unfold len in Hbad. rewrite length_app, Hl in Hbad. simpl in Hbad. lia. }
    rewrite length_app. simpl length.
    replace (length es + 1 - 5)%nat with 0%nat by lia.
    rewrite drop_0, exchange_messages_app. by rewrite <- app_assoc.
Qed.

Lemma vectorbt_expert_exchanges cells :
  foldl (fun h co => Magics.vectorbt_expert h co.1 co.2) [] cells
  = let es := recorded_exchanges cells in
    exchange_messages (drop (length es - 5) es).
Proof.
  cbv zeta. induction cells as [|[cell outcome] cells IH] using rev_ind; [done|].
  rewrite foldl_snoc, IH. unfold recorded_exchanges.
  rewrite omap_app. fold (recorded_exchanges cells).
  set (es := recorded_exchanges cells).
  unfold Magics.vectorbt_expert. cbn [fst snd omap list_omap].
  destruct (strip cell) as [|c q] eqn:Eq; [by rewrite app_nil_r|].
  destruct outcome as [|r code]; [by rewrite app_nil_r|].
  cbn [app]. rewrite exchange_step by (rewrite length_drop; lia).
  by rewrite <- (last_five_snoc es).
Qed.

End Exchanges.

(** X1: after any sequence of [%%vectorbt_expert] cells the history holds
    exactly the last five recorded exchanges (fewer when fewer were
    recorded), each as a user message followed by an assistant message; a
    blank cell and a failed request record nothing.  The context sent with
    the next query therefore never starts in the middle of an exchange. *)
Theorem magics_history_whole_exchanges
    (cells : list (list N * Magics.http_outcome)) :
  let h := foldl (fun h co => Magics.vectorbt_expert h co.1 co.2) [] cells in
  let es := recorded_exchanges cells in
  h = exchange_messages (drop (length es - 5) es) /\
  len h = 2 * Z.min 5 (len es).
Proof.
  cbv zeta. rewrite vectorbt_expert_exchanges. cbv zeta. split; [done|].
  unfold len. rewrite exchange_messages_length, length_drop. lia.
Qed.

(** ** The chat widget *)

Section WidgetFacts.

Import Widget.

Lemma on_submit_history w value outcome b :
  context_history (_on_submit w value outcome b)
  = Magics.vectorbt_expert (context_history w) value outcome.
Proof.
  unfold _on_submit, Magics.vectorbt_expert.
  destruct (strip value) as [|c q]; [done|].
  unfold _process_query.
  destruct outcome as [|r code]; by destruct (current_execute_button w).
Qed.

Lemma run_snoc shell events e :
  run shell (events ++ [e]) = handle shell (run shell events) e.
Proof. unfold run. by rewrite foldl_snoc. Qed.

Lemma run_history shell events :
  context_history (run shell events).1
  = foldl (fun h co => Magics.vectorbt_expert h co.1 co.2) []
      (omap (fun e => match e with
                      | Submit value outcome _ => Some (value, outcome)
                      | Click _ => None
                      end) events).
Proof.
  induction events as [|e events IH] using rev_ind; [done|].
  rewrite run_snoc, omap_app. destruct e as [value outcome b|b]; simpl.
  - by rewrite foldl_snoc, on_submit_history, IH.
  - by rewrite app_nil_r.
Qed.

(** The codes handed to the shell, plus the one still stored, never
    outnumber the replies that suggested code, and each of them was
    suggested by a reply. *)
Lemma run_executions shell events :
  let st := run shell events in
  (length st.2 +
   match current_code_to_run st.1 with Some (_ :: _) => 1 | _ => 0 end
   <= length (filter (fun e => suggests_code e = true) events))%nat /\
  forall c, c ≠ [] ->
    (c ∈ st.2 \/ current_code_to_run st.1 = Some c) ->
    exists value r b, Submit value (Magics.HttpOk r (Some c)) b ∈ events.
Proof.
  induction events as [|e events [IHn IHc]] using rev_ind.
  - split; [simpl; lia|]. intros c _ [H|H]; [by apply elem_of_nil in H | done].
  - rewrite run_snoc, filter_app, length_app. cbv zeta in *.
    set (st := run shell events) in *.
    assert (Hold : forall c,
               (exists value r b,
                   Submit value (Magics.HttpOk r (Some c)) b ∈ events) ->
               exists value r b,
                 Submit value (Magics.HttpOk r (Some c)) b ∈ events ++ [e]).
    { intros c (v & r & b & H). exists v, r, b. apply elem_of_app. by left. }
    destruct e as [value outcome b|b]; cbn [handle fst snd].
    + unfold _on_submit. rewrite filter_cons, filter_nil. cbn [suggests_code].
      destruct (strip value) as [|ch q] eqn:Eq.
      { split.
        - destruct outcome as [|r [[|? ?]|]]; simpl; lia.
        - intros c Hc H. by apply Hold, IHc. }
      unfold _process_query. destruct outcome as [|r code].
      * split.
        -- simpl. destruct (current_execute_button st.1); simpl;
             destruct (current_code_to_run st.1) as [[|? ?]|]; simpl in *; lia.
        -- intros c Hc [H|H]; [by apply Hold, IHc; [|left]|].
           apply Hold, IHc; [done|]. right.
           by destruct (current_execute_button st.1).
      * split.
        -- destruct code as [[|? ?]|]; simpl;
             destruct (current_code_to_run st.1) as [[|? ?]|]; simpl in *; lia.
        -- intros c Hc [H|H]; [by apply Hold, IHc; [|left]|].
           simpl in H. subst code. exists value, r, b.
           apply elem_of_app. right. apply list_elem_of_here.
    + rewrite filter_cons, filter_nil. cbn [suggests_code].
      unfold _execute_code_button_clicked. cbn [fst snd current_code_to_run].
      split.
      * destruct (current_code_to_run st.1) as [[|? ?]|]; destruct shell;
          simpl; rewrite ?length_app; simpl in *; lia.
      * intros c Hc [H|H]; [|done]. apply Hold, IHc; [done|].
        destruct (current_code_to_run st.1) as [[|ch code]|] eqn:Ecode;
          destruct shell; try (by left).
        apply elem_of_app in H as [H|H]; [by left|].
        apply list_elem_of_singleton in H. right. by subst c.
Qed.

End WidgetFacts.

(** X2: after any sequence of submissions and button clicks the widget's
    history is what the same submissions leave through the magic command:
    the last five recorded exchanges, whole, in order. *)
Theorem widget_history_whole_exchanges shell (events : list Widget.event) :
  let cells := omap (fun e => match e with
                              | Widget.Submit value outcome _ => Some (value, outcome)
                              | Widget.Click _ => None
                              end) events in
  let es := recorded_exchanges cells in
  Widget.context_history (Widget.run shell events).1
  = exchange_messages (drop (length es - 5) es).
Proof. cbv zeta. by rewrite run_history, vectorbt_expert_exchanges. Qed.

(** X3: in the widget a suggested code is handed to the shell at most
    once: over any sequence of submissions and clicks (on any buttons, old
    or new) the number of executions is at most the number of replies that
    suggested code, and every executed code was suggested by some reply. *)
Theorem widget_code_runs_at_most_once shell (events : list Widget.event) :
  (length (Widget.run shell events).2
   <= length (filter (fun e => suggests_code e = true) events))%nat /\
  forall c, c ∈ (Widget.run shell events).2 ->
    exists value r b,
      Widget.Submit value (Magics.HttpOk r (Some c)) b ∈ events.
Proof.
  destruct (run_executions shell events) as [Hn Hc]. cbv zeta in *. split.
  - lia.
  - intros c Hin. apply Hc; [|by left].
    intros ->. clear Hn Hc. revert Hin.
    induction events as [|e events IH] using rev_ind; [by intros H; apply elem_of_nil in H|].
    rewrite run_snoc. destruct e as [value outcome b|b]; cbn [Widget.handle fst snd]; [done|].
    unfold Widget._execute_code_button_clicked. cbn [snd].
    destruct (Widget.current_code_to_run _) as [[|? ?]|]; try done.
    destruct shell; [|done]. intros H. apply elem_of_app in H as [H|H]; [by apply IH|].
    by apply list_elem_of_singleton in H.
Qed.

(** ** The indexing pass: flags and stored records *)

Lemma pass_flags env self db :
  let r := Indexer.initialize_knowledge_base env self db in
  let dir := fs env (docs_path self) in
  (r.1 = Ok tt ->
   (is_initialized r.2.1 = true <->
    get_or_create_collection_raises env = false /\
    dir_exists dir = true /\ dir_is_dir dir = true)) /\
  (r.1 <> Ok tt <->
   get_or_create_collection_raises env = false /\
   dir_exists dir = true /\ dir_is_dir dir = true /\
   dir_rglob_md dir <> [] /\ collection_count_raises env = true) /\
  (r.1 <> Ok tt ->
   is_initialized r.2.1 = is_initialized self /\ r.2.2 = db) /\
  (is_initialized r.2.1 = true -> collection r.2.1 = Some collection_name) /\
  docs_path r.2.1 = docs_path self /\ system_prompt r.2.1 = system_prompt self.
Proof.
  cbv zeta. unfold Indexer.initialize_knowledge_base, Indexer.collection_count.
  destruct (get_or_create_collection_raises env);
    [by repeat split; intros; destruct_and?|].
  cbn [Indexer.set_collection docs_path].
  destruct (dir_exists _), (dir_is_dir _); cbn [negb orb];
    try (by repeat split; intros; destruct_and?).
  destruct (dir_rglob_md _) as [|f fs];
    [by repeat split; intros; destruct_and?|].
  destruct (collection_count_raises env); cbn [fst snd];
    by repeat split; intros; destruct_and?.
Qed.

(** X4: when the indexing pass returns, the session is initialized exactly
    when the collection could be opened and the corpus root is an existing
    directory; failures to read files, to fetch the stored ids or to store
    the batch do not change the flag.  The pass raises exactly when markdown
    files were found and counting the stored documents (line 127) raises:
    then the flag and the collection are what they were before the pass.
    An initialized session always holds the collection handle. *)
Theorem pass_initialized_iff env self db :
  let r := Indexer.initialize_knowledge_base env self db in
  let dir := fs env (docs_path self) in
  (r.1 = Ok tt ->
   (is_initialized r.2.1 = true <->
    get_or_create_collection_raises env = false /\
    dir_exists dir = true /\ dir_is_dir dir = true)) /\
  (r.1 <> Ok tt <->
   get_or_create_collection_raises env = false /\
   dir_exists dir = true /\ dir_is_dir dir = true /\
   dir_rglob_md dir <> [] /\ collection_count_raises env = true) /\
  (r.1 <> Ok tt ->
   is_initialized r.2.1 = is_initialized self /\ r.2.2 = db) /\
  (is_initialized r.2.1 = true -> collection r.2.1 = Some collection_name) /\
  docs_path r.2.1 = docs_path self /\ system_prompt r.2.1 = system_prompt self.
Proof. apply pass_flags. Qed.

Lemma pass_initialized_iff_witness :
  let r := Indexer.initialize_knowledge_base
             (IndexEnv (fun _ => Directory true true [guide]) false true false false)
             fresh_agent [] in
  is_initialized r.2.1 = is_initialized fresh_agent /\ r.2.2 = [].
Proof.
  apply (proj1 (proj2 (proj2 (pass_initialized_iff
           (IndexEnv (fun _ => Directory true true [guide]) false true false false)
           fresh_agent [])))).
  discriminate.
Defined.

Lemma pass_indexable env self db :
  is_initialized self = false ->
  let r := Indexer.initialize_knowledge_base env self db in
  (is_initialized r.2.1 = true <-> indexable env (docs_path self)) /\
  (is_initialized r.2.1 = true ->
   r.1 = Ok tt /\ collection r.2.1 = Some collection_name).
Proof.
  intros Hself. cbv zeta.
  unfold indexable, Indexer.initialize_knowledge_base, Indexer.collection_count.
  destruct (get_or_create_collection_raises env);
    [by repeat split; intros; destruct_and?|].
  cbn [Indexer.set_collection docs_path].
  destruct (dir_exists _), (dir_is_dir _); cbn [negb orb];
    try (by repeat split; intros; destruct_and?).
  destruct (dir_rglob_md _) as [|f fs]; [by repeat split; auto|].
  destruct (collection_count_raises env); cbn [fst snd Indexer.set_initialized
    Indexer.set_collection is_initialized collection].
  - rewrite Hself. split; [|done]. split; [done|].
    intros (_ & _ & _ & [? | ?]); done.
  - repeat split; auto.
Qed.

(** ** The conversation service *)

Section ServiceFacts.

Import Service.

Lemma count_positive (c : Chroma.collection) :
  (0 <? Chroma.count c) = true <-> c <> [].
Proof.
  unfold Chroma.count, len. destruct c; simpl; [done|].
  split; [done|]. intros _. apply Z.ltb_lt. lia.
Qed.

Lemma init_report_cases env agent db :
  (is_initialized agent = false ->
   exists d, init_report env agent db = Raise (HTTPException 500 d)) /\
  (is_initialized agent = true -> collection agent <> None ->
   report_count_raises env = true ->
   exists e, init_report env agent db = Raise e) /\
  (is_initialized agent = true -> collection agent <> None ->
   report_count_raises env = false -> db <> [] ->
   init_report env agent db
   = Ok (InitResponse_ (lit "success")
           (lit "Agent initialized successfully. Knowledge base loaded with "
            ++ str_of_nat (length db) ++ lit " documents."))) /\
  (is_initialized agent = true -> collection agent <> None ->
   report_count_raises env = false -> db = [] ->
   exists msg, init_report env agent db = Ok (InitResponse_ (lit "warning") msg)).
Proof.
  unfold init_report. repeat split.
  - intros ->. by eexists.
  - intros -> Hc ->. destruct (collection agent); [|done]. by eexists.
  - intros -> Hc -> Hdb. destruct (collection agent); [|done].
    cbn [mbind Exc_bind]. rewrite (proj2 (count_positive db) Hdb).
    unfold Chroma.count, len. by rewrite Nat2Z.id.
  - intros -> Hc -> ->. destruct (collection agent); [|done].
    cbn [mbind Exc_bind]. change (0 <? Chroma.count []) with false. cbv iota.
    destruct (dir_exists _ && _); [|destruct (negb _)]; by eexists.
Qed.

End ServiceFacts.

Lemma initialize_cases env request agent db :
  let path := path_str env (request_docs_path request) in
  let p := Indexer.initialize_knowledge_base (index env)
             (Agent path None DEFAULT_SYSTEM_PROMPT false) db in
  let r := Service.initialize_agent_endpoint env request agent db in
  gemini_api_key request <> [] -> constructor_raises env = None ->
  r.2 = (Some p.2.1, p.2.2) /\
  (is_initialized p.2.1 = true <-> indexable (index env) path) /\
  (indexable (index env) path -> report_count_raises env = false ->
   p.2.2 <> [] ->
   r.1 = Ok (InitResponse_ (lit "success")
               (lit "Agent initialized successfully. Knowledge base loaded with "
                ++ str_of_nat (length p.2.2) ++ lit " documents."))) /\
  (indexable (index env) path -> report_count_raises env = false ->
   p.2.2 = [] ->
   exists msg, r.1 = Ok (InitResponse_ (lit "warning") msg)) /\
  (~ (indexable (index env) path /\ report_count_raises env = false) ->
   exists d, r.1 = Raise (HTTPException 500 d)).
Proof.
  cbv zeta. intros Hkey Hcons. unfold Service.initialize_agent_endpoint.
  destruct (gemini_api_key request) as [|k key]; [done|]. rewrite Hcons.
  cbn [fst snd].
  set (fresh := Agent _ _ _ _).
  destruct (pass_indexable (index env) fresh db eq_refl) as [Hiff Hok].
  cbv zeta in Hiff, Hok. change (docs_path fresh) with
    (path_str env (request_docs_path request)) in Hiff.
  set (p := Indexer.initialize_knowledge_base (index env) fresh db) in *.
  destruct (init_report_cases env p.2.1 p.2.2) as (Hno & Hcount & Hyes & Hwarn).
  split; [done|]. split; [exact Hiff|]. split; [|split].
  - intros Hix Hrep Hdb. apply Hiff in Hix.
    destruct (Hok Hix) as [-> Hcoll]. cbn [mbind Exc_bind].
    rewrite Hyes; [done | done | by rewrite Hcoll | done | done].
  - intros Hix Hrep Hdb. apply Hiff in Hix.
    destruct (Hok Hix) as [-> Hcoll]. cbn [mbind Exc_bind].
    destruct Hwarn as (msg & ->); [done | by rewrite Hcoll | done | done |].
    by exists msg.
  - intros Hnot. destruct p.1 as [[]|e] eqn:Ep; cbn [mbind Exc_bind try_except];
      [|by eexists].
    destruct (is_initialized p.2.1) eqn:Hinit.
    + destruct (Hok eq_refl) as [_ Hcoll].
      destruct (report_count_raises env) eqn:Hrep.
      * destruct Hcount as (e & ->); [done | by rewrite Hcoll | done |].
        by eexists.
      * destruct Hnot. split; [by apply Hiff | done].
    + destruct Hno as (d & ->); [done|]. by eexists.
Qed.

(** X5: [/initialize] has four outcomes, each with its condition.  With an
    empty key it fails with HTTP 400 and leaves the global session and the
    collection untouched; when the constructor of the session raises it
    fails with HTTP 500 and leaves them untouched as well.  Otherwise the
    new session replaces the global one, and the answer is status "success"
    exactly when the pass leaves the session initialized, the count of the
    report does not raise and the collection holds documents; status
    "warning" exactly when the same holds with an empty collection; and
    HTTP 500 exactly in the remaining cases. *)
Theorem initialize_outcomes env request agent db :
  let path := path_str env (request_docs_path request) in
  let p := Indexer.initialize_knowledge_base (index env)
             (Agent path None DEFAULT_SYSTEM_PROMPT false) db in
  let r := Service.initialize_agent_endpoint env request agent db in
  let ready := indexable (index env) path /\ report_count_raises env = false in
  (gemini_api_key request = [] ->
   r = (Raise (HTTPException 400 (lit "GEMINI_API_KEY is required.")),
        (agent, db))) /\
  (gemini_api_key request <> [] ->
   forall e, constructor_raises env = Some e ->
   r = (Raise (HTTPException 500
                 (lit "Failed to initialize agent: " ++ init_exn_str env e)),
        (agent, db))) /\
  (gemini_api_key request <> [] -> constructor_raises env = None ->
   r.2 = (Some p.2.1, p.2.2) /\
   ((exists msg, r.1 = Ok (InitResponse_ (lit "success") msg))
    <-> ready /\ p.2.2 <> []) /\
   ((exists msg, r.1 = Ok (InitResponse_ (lit "warning") msg))
    <-> ready /\ p.2.2 = []) /\
   ((exists d, r.1 = Raise (HTTPException 500 d)) <-> ~ ready)).
Proof.
  cbv zeta. split; [|split].
  - intros Hkey. unfold Service.initialize_agent_endpoint. by rewrite Hkey.
  - intros Hkey e He. unfold Service.initialize_agent_endpoint.
    destruct (gemini_api_key request); [done|]. by rewrite He.
  - intros Hkey Hcons.
    destruct (initialize_cases env request agent db Hkey Hcons)
      as (Hst & _ & Hyes & Hwarn & Hfail).
    cbv zeta in *. split; [exact Hst|].
    set (path := path_str env (request_docs_path request)) in *.
    set (p := Indexer.initialize_knowledge_base _ _ _) in *.
    set (r := Service.initialize_agent_endpoint _ _ _ _) in *.
    assert (Hdec : (indexable (index env) path /\ report_count_raises env = false)
                   \/ ~ (indexable (index env) path /\ report_count_raises env = false)).
    { unfold indexable. cbv zeta.
      destruct (get_or_create_collection_raises _), (dir_exists _), (dir_is_dir _),
        (report_count_raises env);
        try (right; intros ?; destruct_and?; done).
      destruct (dir_rglob_md _) as [|f fs] eqn:Efiles;
        [left; repeat split; by left|].
      destruct (collection_count_raises _);
        [right; intros ((_ & _ & _ & [? | ?]) & _); done|].
      left. repeat split. by right. }
    destruct Hdec as [[Hix Hrep] | Hnot].
    + destruct (decide (p.2.2 = [])) as [Hdb | Hdb].
      * destruct (Hwarn Hix Hrep Hdb) as (msg & Hr). rewrite Hr.
        split; [|split].
        -- split; [by intros (? & [=]) | by intros [_ ?]].
        -- split; [done | by eexists].
        -- split; [by intros (? & [=]) | by intros []].
      * rewrite (Hyes Hix Hrep Hdb). split; [|split].
        -- split; [done | by eexists].
        -- split; [by intros (? & [=]) | by intros [_ ?]].
        -- split; [by intros (? & [=]) | by intros []].
    + destruct (Hfail Hnot) as (d & Hr). rewrite Hr. split; [|split].
      * split; [by intros (? & [=]) | by intros [? _]].
      * split; [by intros (? & [=]) | by intros [? _]].
      * split; [done | by eexists].
Qed.

Lemma query_status_cases env request agent :
  exists r,
    Service.query_agent_endpoint env request agent = Ok r /\
    status r = match agent with
               | Some a => if is_initialized a then lit "success"
                           else lit "agent_not_initialized"
               | None => lit "agent_not_initialized"
               end.
Proof.
  destruct agent as [a|]; [|by eexists].
  destruct (is_initialized a) eqn:Hinit.
  - destruct (generate_response_initialized env a (query request)
                (context request) Hinit) as (chunks & _ & Hg).
    unfold Service.query_agent_endpoint. rewrite Hinit, Hg.
    eexists. split; reflexivity.
  - unfold Service.query_agent_endpoint. rewrite Hinit.
    eexists. split; reflexivity.
Qed.

(** X6: [/status] and [/query] agree on the session: [/status] reports
    "not_initialized" exactly when [/query] answers with status
    "agent_not_initialized", and otherwise reports "initialized" while
    [/query] answers with status "success", also when counting the
    documents fails. *)
Theorem status_agrees_with_query env request count_raises agent db :
  exists r,
    Service.query_agent_endpoint env request agent = Ok r /\
    ((status r = lit "agent_not_initialized" /\
      Startup.get_status count_raises agent db
      = [(lit "agent_status", lit "not_initialized")]) \/
     (status r = lit "success" /\
      head (Startup.get_status count_raises agent db)
      = Some (lit "agent_status", lit "initialized"))).
Proof.
  destruct (query_status_cases env request agent) as (r & Hr & Hs).
  exists r. split; [done|]. rewrite Hs. unfold Startup.get_status.
  destruct agent as [a|]; [|by left].
  destruct (is_initialized a); [by right | by left].
Qed.

(** X7: after [/initialize] has answered (success or warning), a query is
    answered with status "success".  After it has failed once the
    constructor had returned, the new session has replaced the global one,
    even a ready one: a query is then answered with status
    "agent_not_initialized" when the pass did not leave the session
    initialized; and when it did, so that the failure was the count of the
    report at line 320, a query is answered with status "success" although
    [/initialize] failed.  With an empty key, or when the constructor
    fails, the previous session stays. *)
Theorem initialize_then_query env qenv request qrequest agent db :
  let path := path_str env (request_docs_path request) in
  let r := Service.initialize_agent_endpoint env request agent db in
  (forall resp, r.1 = Ok resp ->
     exists qr, Service.query_agent_endpoint qenv qrequest r.2.1 = Ok qr /\
                status qr = lit "success") /\
  (gemini_api_key request <> [] -> constructor_raises env = None ->
   forall e, r.1 = Raise e ->
     exists qr, Service.query_agent_endpoint qenv qrequest r.2.1 = Ok qr /\
       (~ indexable (index env) path ->
        status qr = lit "agent_not_initialized") /\
       (indexable (index env) path ->
        report_count_raises env = true /\ status qr = lit "success")) /\
  (gemini_api_key request = [] \/ constructor_raises env <> None ->
   r.2 = (agent, db)).
Proof.
  cbv zeta. split; [|split].
  - intros resp Hr.
    destruct (query_status_cases qenv qrequest
                (Service.initialize_agent_endpoint env request agent db).2.1)
      as (qr & Hq & Hs).
    exists qr. split; [done|]. rewrite Hs. clear Hs Hq.
    unfold Service.initialize_agent_endpoint in *.
    destruct (gemini_api_key request) as [|k key]; [done|].
    destruct (constructor_raises env); [done|]. cbn [fst snd] in *.
    set (p := Indexer.initialize_knowledge_base _ _ _) in *.
    destruct p.1 as [[]|e]; [|done]. cbn [mbind Exc_bind try_except] in Hr.
    destruct (is_initialized p.2.1) eqn:Hinit; [done|].
    destruct (proj1 (init_report_cases env p.2.1 p.2.2) Hinit) as (d & Hd).
    by rewrite Hd in Hr.
  - intros Hkey Hcons e Hr.
    destruct (initialize_cases env request agent db Hkey Hcons)
      as (Hst & Hiff & Hyes & Hwarn & _).
    cbv zeta in *.
    set (path := path_str env (request_docs_path request)) in *.
    set (p := Indexer.initialize_knowledge_base _ _ _) in *.
    destruct (query_status_cases qenv qrequest
                (Service.initialize_agent_endpoint env request agent db).2.1)
      as (qr & Hq & Hs).
    exists qr. split; [done|]. rewrite Hst in Hs. cbn [fst] in Hs.
    split.
    + intros Hnot. rewrite Hs.
      destruct (is_initialized p.2.1); [|done]. destruct Hnot. by apply Hiff.
    + intros Hix. split.
      * destruct (report_count_raises env) eqn:Hrep; [done|].
        destruct (decide (p.2.2 = [])) as [Hdb | Hdb].
        -- destruct (Hwarn Hix eq_refl Hdb) as (msg & Hw). congruence.
        -- rewrite (Hyes Hix eq_refl Hdb) in Hr. done.
      * rewrite Hs. by rewrite (proj2 Hiff Hix).
  - intros Hcase. unfold Service.initialize_agent_endpoint.
    destruct (gemini_api_key request); [done|].
    destruct Hcase as [? | Hcons]; [done|].
    by destruct (constructor_raises env).
Qed.

Lemma initialize_then_query_witness :
  let env := InitEnv None (fun p => p) (one_file false false) true (fun _ => []) in
  let r := Service.initialize_agent_endpoint env sample_init_request None [] in
  r.1 = Raise (HTTPException 500 (lit "Failed to initialize agent: ")) /\
  exists qr,
    Service.query_agent_endpoint silent_model sample_request r.2.1 = Ok qr /\
    status qr = lit "success".
Proof.
  split; [vm_compute; reflexivity|].
  destruct (proj1 (proj2 (initialize_then_query
              (InitEnv None (fun p => p) (one_file false false) true (fun _ => []))
              silent_model sample_init_request sample_request None []))
            ltac:(discriminate) eq_refl
            (HTTPException 500 (lit "Failed to initialize agent: "))
            ltac:(vm_compute; reflexivity))
    as (qr & Hq & _ & Hs).
  exists qr. split; [exact Hq|]. apply Hs.
  vm_compute. repeat split. by right.
Defined.

(** X8: initialization at start-up leaves the global session and the
    collection as a [/initialize] request with the key and the path of the
    environment does (the default path when [DOCS_PATH] is unset); without
    a key, or with an empty one, it changes nothing. *)
Theorem auto_initialize_as_endpoint env getenv_key getenv_docs agent db :
  Startup._auto_initialize_agent_impl env getenv_key getenv_docs agent db
  = match getenv_key with
    | Some ((_ :: _) as key) =>
        (Service.initialize_agent_endpoint env
           (InitRequest_ key (default DEFAULT_DOCS_PATH getenv_docs)) agent db).2
    | _ => (agent, db)
    end.
Proof.
  unfold Startup._auto_initialize_agent_impl, Service.initialize_agent_endpoint.
  destruct getenv_key as [[|k key]|]; try done. cbn [gemini_api_key].
  by destruct (constructor_raises env).
Qed.

(** X9: [%vectorbt_init] accepts the documentation path in both
    spellings: [optional_docs_path=P] and [P] give the same payload, and
    further arguments are ignored.  Without a path (or with an empty one)
    the payload has no [docs_path] and the backend takes its default. *)
Theorem vectorbt_init_payload_spellings api_key p rest :
  Regex.strip_prefix Magics.DOCS_PATH_OPTION p = None ->
  Magics.vectorbt_init_payload
    (api_key :: (Magics.DOCS_PATH_OPTION ++ p) :: rest)
  = Magics.vectorbt_init_payload [api_key; p] /\
  Magics.vectorbt_init_payload (api_key :: p :: rest)
  = Magics.vectorbt_init_payload [api_key; p] /\
  Magics.init_request_of_payload
    (default (api_key, None) (Magics.vectorbt_init_payload [api_key]))
  = InitRequest_ api_key DEFAULT_DOCS_PATH /\
  Magics.vectorbt_init_payload [api_key; Magics.DOCS_PATH_OPTION]
  = Magics.vectorbt_init_payload [api_key].
Proof.
  intros Hp. repeat split.
  unfold Magics.vectorbt_init_payload. rewrite Hp.
  assert (Regex.strip_prefix Magics.DOCS_PATH_OPTION
            (Magics.DOCS_PATH_OPTION ++ p) = Some p) as ->
    by by apply strip_prefix_Some.
  rewrite bool_decide_eq_true_2 by by eexists.
  rewrite bool_decide_eq_false_2 by by intros [? ?].
  reflexivity.
Qed.

Lemma vectorbt_init_payload_spellings_witness :
  Magics.vectorbt_init_payload
    [lit "key"; Magics.DOCS_PATH_OPTION ++ lit "/srv/docs"; lit "more"]
  = Magics.vectorbt_init_payload [lit "key"; lit "/srv/docs"].
Proof.
  exact (proj1 (vectorbt_init_payload_spellings (lit "key") (lit "/srv/docs")
                  [lit "more"] eq_refl)).
Defined.

(** ** The chunker: edge cases *)

Section ChunkerEdges.

Import Chunker.

Lemma split_from_blank s :
  Forall (fun c => isspace c = true) s -> split_from [] s = [].
Proof.
  induction 1 as [|c s Hc _ IH]; [done|]. simpl. by rewrite Hc.
Qed.

Lemma appended_length_nonneg ws : 0 <= appended_length ws.
Proof. induction ws as [|w ws IH]; simpl; unfold len in *; lia. Qed.

Lemma appended_length_join ws :
  ws <> [] -> appended_length ws = len (join SP ws) + 1.
Proof.
  induction ws as [|w ws IH]; [done|]. intros _.
  destruct ws as [|w' ws]; [simpl; lia|].
  rewrite join_cons2. change (appended_length (w :: w' :: ws))
    with (len w + 1 + appended_length (w' :: ws)).
  rewrite IH by done. unfold len. rewrite !length_app. simpl. lia.
Qed.

Lemma bind_Ok {A B} (x : A) (f : A -> Exc B) : Ok x ≫= f = f x.
Proof. reflexivity. Qed.

Lemma step_fits words max_chunk_size overlap st w :
  current_length st + len w + 1 <= max_chunk_size ->
  step words max_chunk_size overlap st w
  = Ok (State (chunks st) (current_chunk st ++ [w])
              (current_length st + len w + 1)).
Proof.
  intros Hfit. unfold step.
  by destruct (Z.leb_spec (current_length st + len w + 1) max_chunk_size); [|lia].
Qed.

Lemma step_raises words max_chunk_size overlap st w :
  0 <= overlap < 5 -> words <> [] ->
  max_chunk_size < current_length st + len w + 1 ->
  step words max_chunk_size overlap st w = Raise ZeroDivisionError.
Proof.
  intros Hov Hne Hfull. unfold step.
  destruct (Z.leb_spec (current_length st + len w + 1) max_chunk_size); [lia|].
  unfold overlap_start_index. destruct words as [|w0 ws0]; [done|].
  rewrite Z.div_small by lia. reflexivity.
Qed.

(** While the words fit, they are appended to the open chunk. *)
Lemma for_each_fits words max_chunk_size overlap ws chs cur cl :
  cl + appended_length ws <= max_chunk_size ->
  for_each (step words max_chunk_size overlap) ws (State chs cur cl)
  = Ok (State chs (cur ++ ws) (cl + appended_length ws)).
Proof.
  revert cur cl. induction ws as [|w ws IH]; intros cur cl Hfit.
  - simpl. by rewrite app_nil_r, Z.add_0_r.
  - pose proof (appended_length_nonneg ws) as Hnn.
    change (appended_length (w :: ws)) with (len w + 1 + appended_length ws) in *.
    cbn [for_each]. rewrite step_fits by (simpl; lia).
    rewrite bind_Ok. cbn [chunks current_chunk current_length].
    rewrite IH by lia.
    rewrite <- app_assoc. do 2 f_equal. lia.
Qed.

(** With an overlap from 0 to 4 the first word that does not fit raises. *)
Lemma for_each_overflows words max_chunk_size overlap ws chs cur cl :
  0 <= overlap < 5 -> words <> [] -> ws <> [] ->
  max_chunk_size < cl + appended_length ws ->
  for_each (step words max_chunk_size overlap) ws (State chs cur cl)
  = Raise ZeroDivisionError.
Proof.
  intros Hov Hwords. revert cur cl.
  induction ws as [|w ws IH]; intros cur cl Hne Hover; [done|].
  change (appended_length (w :: ws)) with (len w + 1 + appended_length ws) in *.
  cbn [for_each].
  destruct (Z.leb_spec (cl + len w + 1) max_chunk_size) as [Hfit|Hfull].
  - rewrite step_fits by (simpl; lia). rewrite bind_Ok.
    cbn [chunks current_chunk current_length]. apply IH; [|lia].
    intros ->. simpl in Hover. lia.
  - by rewrite step_raises.
Qed.

Lemma step_ok words max_chunk_size overlap st w :
  len (join SP (slice_to words (overlap / 5))) <> 0 -> words <> [] ->
  exists st', step words max_chunk_size overlap st w = Ok st' /\
              chunks st `prefix_of` chunks st'.
Proof.
  intros Hdiv Hne. unfold step.
  destruct (_ <=? _); [by eexists|].
  unfold overlap_start_index, floordiv. destruct words; [done|].
  destruct (Z.eqb_spec (len (join SP (slice_to (l :: words) (overlap / 5)))) 0);
    [done|].
  eexists. split; [reflexivity|]. by apply prefix_app_r.
Qed.

Lemma for_each_ok words max_chunk_size overlap ws st :
  len (join SP (slice_to words (overlap / 5))) <> 0 -> words <> [] ->
  exists st', for_each (step words max_chunk_size overlap) ws st = Ok st' /\
              chunks st `prefix_of` chunks st'.
Proof.
  intros Hdiv Hne. revert st. induction ws as [|w ws IH]; intros st.
  - by exists st.
  - destruct (step_ok words max_chunk_size overlap st w Hdiv Hne)
      as (st1 & Hst1 & Hp1).
    destruct (IH st1) as (st' & Hst' & Hp').
    exists st'. split; [|by etrans].
    cbn [for_each]. by rewrite Hst1.
Qed.

(** The open chunk is made of the last words read, and every closed chunk
    is a run of words read. *)
Lemma step_runs words max_chunk_size overlap st w st' seen :
  step words max_chunk_size overlap st w = Ok st' ->
  current_chunk st `suffix_of` seen ->
  Forall (word_run seen) (chunks st) ->
  current_chunk st' `suffix_of` (seen ++ [w]) /\
  Forall (word_run (seen ++ [w])) (chunks st').
Proof.
  intros Hstep Hcur Hchunks.
  assert (Hgrow : Forall (word_run (seen ++ [w])) (chunks st)).
  { eapply Forall_impl; [exact Hchunks|].
    intros c (a & seg & b & -> & ->). exists a, seg, (b ++ [w]).
    by rewrite <- !app_assoc. }
  unfold step in Hstep. destruct (_ <=? _).
  - injection Hstep as <-. simpl. split; [by apply suffix_app | done].
  - destruct (overlap_start_index _ _ _) as [i|e]; [|done].
    injection Hstep as <-. simpl. split.
    + apply suffix_app. etrans; [|exact Hcur].
      unfold slice_from. destruct (_ <? _); apply suffix_drop.
    + apply Forall_app. split; [done|]. apply Forall_singleton.
      destruct Hcur as [a ->]. exists a, (current_chunk st), [w].
      by rewrite <- app_assoc.
Qed.

Lemma for_each_runs words max_chunk_size overlap ws st st' seen :
  for_each (step words max_chunk_size overlap) ws st = Ok st' ->
  current_chunk st `suffix_of` seen ->
  Forall (word_run seen) (chunks st) ->
  current_chunk st' `suffix_of` (seen ++ ws) /\
  Forall (word_run (seen ++ ws)) (chunks st').
Proof.
  revert st seen. induction ws as [|w ws IH]; intros st seen Hrun Hcur Hchunks.
  - injection Hrun as <-. by rewrite app_nil_r.
  - cbn [for_each] in Hrun.
    destruct (step words max_chunk_size overlap st w) as [st1|e] eqn:E; [|done].
    destruct (step_runs _ _ _ _ _ _ _ E Hcur Hchunks) as [Hcur1 Hchunks1].
    change (seen ++ w :: ws) with (seen ++ [w] ++ ws). rewrite app_assoc.
    by apply (IH st1).
Qed.

End ChunkerEdges.

(** X10: a text without words, empty or made of whitespace only, gives no
    chunk, whatever the parameters. *)
Theorem split_text_blank text max_chunk_size overlap :
  Forall (fun c => isspace c = true) text ->
  Chunker._split_text text max_chunk_size overlap = Ok [].
Proof.
  intros Hblank. unfold Chunker._split_text.
  destruct text; [done|]. unfold py_split. by rewrite split_from_blank.
Qed.

Lemma split_text_blank_witness :
  Chunker._split_text (lit "  ") 5 0 = Ok [].
Proof.
  apply split_text_blank. repeat constructor.
Defined.

(** X11: when the words of the text, joined by single spaces and counted
    with one separator more, fit in [max_chunk_size], the result is that
    one chunk, for every overlap: runs of whitespace are normalised to one
    space and the division of the overlap arithmetic is not reached. *)
Theorem split_text_single_chunk text max_chunk_size overlap :
  py_split text <> [] ->
  len (join SP (py_split text)) + 1 <= max_chunk_size ->
  Chunker._split_text text max_chunk_size overlap
  = Ok [join SP (py_split text)].
Proof.
  intros Hne Hfit. unfold Chunker._split_text.
  destruct text as [|c text]; [done|].
  destruct (py_split (c :: text)) as [|w ws] eqn:E; [done|].
  rewrite for_each_fits by (rewrite appended_length_join by done; lia).
  reflexivity.
Qed.

Lemma split_text_single_chunk_witness :
  Chunker._split_text (lit " ab   cd ") 6 0 = Ok [lit "ab cd"].
Proof.
  apply (split_text_single_chunk (lit " ab   cd ") 6 0).
  - vm_compute. discriminate.
  - vm_compute. discriminate.
Defined.

(** X12: with an overlap from 0 to 4, [_split_text] returns only for a text
    that fits in one chunk: as soon as one word does not fit, it raises
    [ZeroDivisionError]. *)
Theorem split_text_small_overlap text max_chunk_size overlap :
  0 <= overlap < 5 -> py_split text <> [] ->
  Chunker._split_text text max_chunk_size overlap
  = if len (join SP (py_split text)) + 1 <=? max_chunk_size
    then Ok [join SP (py_split text)]
    else Raise ZeroDivisionError.
Proof.
  intros Hov Hne.
  destruct (Z.leb_spec (len (join SP (py_split text)) + 1) max_chunk_size).
  - unfold Chunker._split_text.
    destruct text as [|c text]; [done|].
    destruct (py_split (c :: text)) as [|w ws] eqn:E; [done|].
    rewrite for_each_fits by (rewrite appended_length_join by done; lia).
    reflexivity.
  - unfold Chunker._split_text.
    destruct text as [|c text]; [done|].
    destruct (py_split (c :: text)) as [|w ws] eqn:E; [done|].
    rewrite for_each_overflows; try done.
    rewrite appended_length_join by done. lia.
Qed.

Lemma split_text_small_overlap_witness :
  Chunker._split_text (lit "ab cd ef") 6 4 = Raise ZeroDivisionError.
Proof.
  refine (split_text_small_overlap (lit "ab cd ef") 6 4 _ _).
  - lia.
  - vm_compute. discriminate.
Defined.

Lemma step_closes words max_chunk_size overlap st w :
  len (join SP (slice_to words (overlap / 5))) <> 0 -> words <> [] ->
  max_chunk_size < Chunker.current_length st + len w + 1 ->
  exists cur' cl',
    Chunker.step words max_chunk_size overlap st w
    = Ok (Chunker.State
            (Chunker.chunks st ++ [join SP (Chunker.current_chunk st)])
            cur' cl').
Proof.
  intros Hdiv Hne Hfull. unfold Chunker.step.
  destruct (Z.leb_spec (Chunker.current_length st + len w + 1) max_chunk_size);
    [lia|].
  unfold Chunker.overlap_start_index, floordiv. destruct words; [done|].
  destruct (Z.eqb_spec (len (join SP (slice_to (l :: words) (overlap / 5)))) 0);
    [done|].
  by do 2 eexists.
Qed.

(** X13: with an overlap of at least 5, a first word that does not fit in
    [max_chunk_size] on its own (its length plus one separator exceeds it)
    makes the first returned chunk the empty string. *)
Theorem split_text_long_first_word text max_chunk_size overlap w ws :
  5 <= overlap -> py_split text = w :: ws ->
  max_chunk_size < len w + 1 ->
  exists rest,
    Chunker._split_text text max_chunk_size overlap = Ok ([] :: rest).
Proof.
  intros Hov Hwords Hlong.
  pose proof (py_split_ok text) as Hok.
  assert (Hne : py_split text <> []) by by rewrite Hwords.
  pose proof (divisor_nonzero _ _ Hok Hne Hov) as Hdiv.
  unfold Chunker._split_text. destruct text as [|c text]; [done|].
  rewrite Hwords in *. cbn [for_each].
  destruct (step_closes (w :: ws) max_chunk_size overlap
              (Chunker.State [] [] 0) w Hdiv Hne) as (cur' & cl' & ->);
    [simpl; lia|].
  rewrite bind_Ok.
  cbn [Chunker.chunks Chunker.current_chunk app join].
  destruct (for_each_ok (w :: ws) max_chunk_size overlap ws
              (Chunker.State [[]] cur' cl') Hdiv Hne)
    as (st' & -> & [rest Hrest]).
  rewrite bind_Ok. unfold Chunker.finish. simpl in Hrest. rewrite Hrest.
  destruct (Chunker.current_chunk st'); by eexists.
Qed.

Lemma split_text_long_first_word_witness :
  exists rest,
    Chunker._split_text (lit "abcdefgh ij") 5 5 = Ok ([] :: rest).
Proof.
  refine (split_text_long_first_word (lit "abcdefgh ij") 5 5
            (lit "abcdefgh") [lit "ij"] _ eq_refl _).
  - lia.
  - vm_compute. reflexivity.
Defined.

(** X14: every chunk that [_split_text] returns is a run of consecutive
    words of the text joined by single spaces; no word is cut and no
    whitespace of the text other than one space between words is kept. *)
Theorem split_text_word_runs text max_chunk_size overlap returned :
  Chunker._split_text text max_chunk_size overlap = Ok returned ->
  Forall (word_run (py_split text)) returned.
Proof.
  unfold Chunker._split_text. destruct text as [|c text]; [by intros [= <-]|].
  destruct (py_split (c :: text)) as [|w ws] eqn:E; [by intros [= <-]|].
  destruct (for_each _ _ _) as [st|e] eqn:Erun; [|done].
  intros [= <-].
  destruct (for_each_runs _ _ _ _ _ _ [] Erun) as [Hcur Hchunks]; [done|done|].
  cbn [app] in *. unfold Chunker.finish.
  destruct (Chunker.current_chunk st) as [|x cur] eqn:Ecur; [done|].
  apply Forall_app. split; [done|]. apply Forall_singleton.
  destruct Hcur as [a ->]. exists a, (x :: cur), []. by rewrite app_nil_r.
Qed.

Lemma split_text_word_runs_witness :
  Forall (word_run (py_split (lit "a bbbb cccc")))
         [lit "a"; lit "a bbbb"; lit "a bbbb cccc"].
Proof.
  apply (split_text_word_runs (lit "a bbbb cccc") 5 5).
  vm_compute. reflexivity.
Defined.

Lemma split_text_defaults_returns text :
  exists returned,
    Chunker._split_text text Chunker.default_max_chunk_size
                        Chunker.default_overlap = Ok returned /\
    (returned = [] <-> py_split text = []).
Proof.
  unfold Chunker._split_text. destruct text as [|c text]; [by exists []|].
  pose proof (py_split_ok (c :: text)) as Hok.
  destruct (py_split (c :: text)) as [|w ws] eqn:E; [by exists []|].
  assert (Hne : w :: ws <> []) by done.
  assert (Hov : 5 <= Chunker.default_overlap) by (unfold Chunker.default_overlap; lia).
  destruct (for_each_inv (w :: ws) Chunker.default_max_chunk_size
              Chunker.default_overlap (w :: ws)
              (divisor_nonzero _ _ Hok Hne Hov) Hne Hok)
    as (st & kcs & k & -> & [Hchunks _ Hfresh _ _ _ _]).
  rewrite bind_Ok. eexists. split; [reflexivity|].
  split; [|done]. unfold Chunker.finish.
  destruct (Chunker.current_chunk st) as [|x cur] eqn:Ecur.
  - intros Hnil. rewrite Hchunks in Hnil. apply fmap_nil_inv in Hnil as ->.
    rewrite fresh_words_snoc in Hfresh. cbn [fst snd] in Hfresh.
    by rewrite drop_nil in Hfresh.
  - intros Hnil. by apply app_nil in Hnil as [_ ?].
Qed.

(** X15: with the default parameters (1000 and 200) [_split_text] never
    raises, and it returns at least one chunk exactly when the text has a
    word. *)
Theorem split_text_defaults text :
  exists returned,
    Chunker._split_text text Chunker.default_max_chunk_size
                        Chunker.default_overlap = Ok returned /\
    (returned = [] <-> py_split text = []).
Proof. apply split_text_defaults_returns. Qed.

(** ** The indexer: what a pass stores *)

Section IndexerBatch.

Import Indexer.

Lemma foldl_process_acc E acc files :
  foldl (process_file E) acc files = acc ++ foldl (process_file E) [] files.
Proof.
  induction files as [|f files IH] using rev_ind; [by rewrite app_nil_r|].
  rewrite !foldl_snoc, (process_file_acc E (foldl _ acc files)), IH.
  by rewrite (process_file_acc E (foldl _ [] files)), app_assoc.
Qed.

Lemma foldl_process_app E files1 files2 :
  foldl (process_file E) [] (files1 ++ files2)
  = foldl (process_file E) [] files1 ++ foldl (process_file E) [] files2.
Proof. by rewrite foldl_app, foldl_process_acc. Qed.

Lemma foldl_process_cons E f files :
  foldl (process_file E) [] (f :: files)
  = process_file E [] f ++ foldl (process_file E) [] files.
Proof. cbn [foldl]. by rewrite foldl_process_acc. Qed.

Lemma elem_of_new_records E f file_chunks r :
  r ∈ new_records E f file_chunks <->
  exists i doc, file_chunks !! i = Some doc /\
    r = Chroma.Record_ (doc_id f i) doc (relative_path f) /\
    doc_id f i ∉ E.
Proof.
  unfold new_records. rewrite list_elem_of_omap. split.
  - intros ([i doc] & Hin & Hr). apply elem_of_lookup_imap in Hin
      as (i' & doc' & [= -> ->] & Hl). simpl in Hr.
    destruct (decide (doc_id f i' ∈ E)); [done|].
    injection Hr as <-. by exists i', doc'.
  - intros (i & doc & Hl & -> & Hout). exists (i, doc). split.
    + by apply (elem_of_lookup_imap_2 pair).
    + simpl. by destruct (decide (doc_id f i ∈ E)).
Qed.

Lemma elem_of_process_file E f r :
  r ∈ process_file E [] f <->
  exists text file_chunks,
    plain_text f = Ok text /\
    Chunker._split_text text Chunker.default_max_chunk_size
                        Chunker.default_overlap = Ok file_chunks /\
    r ∈ new_records E f file_chunks.
Proof.
  unfold process_file. destruct (plain_text f) as [t|e].
  - rewrite bind_Ok.
    destruct (Chunker._split_text t _ _) as [cs|e] eqn:Ecs.
    + rewrite bind_Ok. cbn [try_or app]. split; [by exists t, cs|].
      intros (t' & cs' & [= <-] & Hcs' & Hr). rewrite Ecs in Hcs'.
      by injection Hcs' as <-.
    + cbn [mbind Exc_bind try_or]. split; [by intros ?%elem_of_nil|].
      intros (t' & cs' & [= <-] & Hcs' & _). by rewrite Ecs in Hcs'.
  - cbn [mbind Exc_bind try_or].
    split; [by intros ?%elem_of_nil | by intros (? & ? & ? & _)].
Qed.

Lemma elem_of_foldl_process E files r :
  r ∈ foldl (process_file E) [] files <->
  exists f, f ∈ files /\ r ∈ process_file E [] f.
Proof.
  induction files as [|f files IH].
  - split; [by intros ?%elem_of_nil | by intros (? & ?%elem_of_nil & _)].
  - rewrite foldl_process_cons, elem_of_app, IH. split.
    + intros [H|(f' & Hf' & H)]; [exists f | exists f'];
        (split; [|done]); [apply list_elem_of_here | by apply list_elem_of_further].
    + intros (f' & [-> | Hf']%elem_of_cons & H); [by left | right; by exists f'].
Qed.

Lemma digits_inj u v : digits u = digits v -> u = v.
Proof.
  revert v. induction u; intros v; destruct v; simpl; try done;
    intros [= H]; f_equal; by apply IHu.
Qed.

Lemma str_of_nat_inj i j : str_of_nat i = str_of_nat j -> i = j.
Proof.
  intros H. apply DecimalNat.Unsigned.to_uint_inj. by apply digits_inj.
Qed.

Lemma doc_id_inj f i j : doc_id f i = doc_id f j -> i = j.
Proof.
  unfold doc_id. intros H. do 2 apply app_inv_head in H.
  by apply str_of_nat_inj.
Qed.

End IndexerBatch.

(** X17: a file that cannot be read or converted is skipped and the other
    files are processed as if it were not there. *)
Theorem unreadable_file_skipped env files1 f files2 db e :
  plain_text f = Raise e ->
  Indexer.to_add env (files1 ++ f :: files2) db
  = Indexer.to_add env (files1 ++ files2) db.
Proof.
  intros Hf. unfold Indexer.to_add.
  rewrite !foldl_process_app, foldl_process_cons.
  unfold Indexer.process_file at 2. by rewrite Hf.
Qed.

Lemma unreadable_file_skipped_witness :
  Indexer.to_add (one_file false false)
    ([guide] ++ MdFile (lit "bad") (lit "bad.md") (lit "bad.md")
                       (Raise (ExternalError [])) :: []) []
  = Indexer.to_add (one_file false false) ([guide] ++ []) [].
Proof.
  exact (unreadable_file_skipped (one_file false false) [guide]
           (MdFile (lit "bad") (lit "bad.md") (lit "bad.md")
                   (Raise (ExternalError []))) [] [] (ExternalError []) eq_refl).
Defined.

(** X18: every record that a pass prepares comes from a chunk of a file of
    the corpus: its document is the chunk at some position of the file's
    chunks, its id is the file's stem, an underscore and that position in
    decimal, its source is the file's relative path, and its id is not
    among the ids fetched from the collection. *)
Theorem batch_provenance env files db r :
  r ∈ Indexer.to_add env files db ->
  exists f text file_chunks i,
    f ∈ files /\ plain_text f = Ok text /\
    Chunker._split_text text Chunker.default_max_chunk_size
                        Chunker.default_overlap = Ok file_chunks /\
    file_chunks !! i = Some (Chroma.rec_document r) /\
    Chroma.rec_id r = stem f ++ lit "_" ++ str_of_nat i /\
    Chroma.rec_source r = relative_path f /\
    Chroma.rec_id r ∉ Indexer.existing_ids env db.
Proof.
  unfold Indexer.to_add. intros Hr.
  apply elem_of_foldl_process in Hr as (f & Hf & Hr).
  apply elem_of_process_file in Hr as (text & cs & Ht & Hcs & Hr).
  apply elem_of_new_records in Hr as (i & doc & Hi & -> & Hout).
  by exists f, text, cs, i.
Qed.

Lemma batch_provenance_witness :
  exists f text file_chunks i,
    f ∈ [guide] /\ plain_text f = Ok text /\
    Chunker._split_text text Chunker.default_max_chunk_size
                        Chunker.default_overlap = Ok file_chunks /\
    file_chunks !! i = Some (lit "hello world") /\
    lit "guide_0" = stem f ++ lit "_" ++ str_of_nat i /\
    lit "guide.md" = relative_path f /\
    lit "guide_0" ∉ Indexer.existing_ids (one_file false false) [].
Proof.
  apply (batch_provenance (one_file false false) [guide] []
           (Chroma.Record_ (lit "guide_0") (lit "hello world") (lit "guide.md"))).
  vm_compute. apply list_elem_of_here.
Defined.

(** X19: the ids of the chunks of one file are pairwise distinct: two
    records that a pass prepares from the same file with the same id are
    the same record. *)
Theorem file_chunk_ids_distinct E f file_chunks r1 r2 :
  r1 ∈ Indexer.new_records E f file_chunks ->
  r2 ∈ Indexer.new_records E f file_chunks ->
  Chroma.rec_id r1 = Chroma.rec_id r2 -> r1 = r2.
Proof.
  intros (i & d1 & Hi & -> & _)%elem_of_new_records
         (j & d2 & Hj & -> & _)%elem_of_new_records Hid.
  simpl in Hid. apply doc_id_inj in Hid as ->.
  rewrite Hi in Hj. by injection Hj as ->.
Qed.

Lemma file_chunk_ids_distinct_witness :
  Chroma.Record_ (lit "guide_0") (lit "hello world") (lit "guide.md")
  = Chroma.Record_ (lit "guide_0") (lit "hello world") (lit "guide.md").
Proof.
  apply (file_chunk_ids_distinct ∅ guide [lit "hello world"]);
    [vm_compute; apply list_elem_of_here ..| reflexivity].
Defined.

Lemma process_file_first_record f text :
  plain_text f = Ok text -> py_split text <> [] ->
  exists doc rest,
    Indexer.process_file ∅ [] f
    = Chroma.Record_ (Indexer.doc_id f 0) doc (relative_path f) :: rest.
Proof.
  intros Ht Hwords. unfold Indexer.process_file. rewrite Ht, bind_Ok.
  destruct (split_text_defaults_returns text) as (cs & -> & Hnil).
  rewrite bind_Ok. cbn [try_or app].
  destruct cs as [|c cs]; [by destruct Hwords; apply Hnil|].
  unfold Indexer.new_records. rewrite imap_cons. cbn [omap list_omap fst snd].
  destruct (decide (Indexer.doc_id f 0 ∈ (∅ : gset (list N)))) as [H|_];
    [by apply not_elem_of_empty in H|].
  by do 2 eexists.
Qed.

(** X20: when two readable markdown files of the corpus, each with at
    least one word, have the same stem (as [a/index.md] and [b/index.md]
    do), the batch prepared for an empty collection holds the id of their
    first chunks twice, the collection rejects the whole batch, and nothing
    is stored: the collection is still empty after the pass. *)
Theorem shared_stem_stores_nothing env self files1 f1 files2 f2 files3 t1 t2 :
  dir_rglob_md (fs env (docs_path self))
  = files1 ++ f1 :: files2 ++ f2 :: files3 ->
  stem f1 = stem f2 ->
  plain_text f1 = Ok t1 -> plain_text f2 = Ok t2 ->
  py_split t1 <> [] -> py_split t2 <> [] ->
  (Indexer.initialize_knowledge_base env self []).2.2 = [].
Proof.
  intros Hfiles Hstem Ht1 Ht2 Hw1 Hw2.
  rewrite pass_collection. cbv zeta. destruct (_ || _ || _ || _); [done|].
  rewrite Hfiles. unfold Indexer.to_add.
  change (Indexer.existing_ids env []) with (∅ : gset (list N)).
  rewrite foldl_process_app, foldl_process_cons, foldl_process_app,
    foldl_process_cons.
  destruct (process_file_first_record f1 t1 Ht1 Hw1) as (d1 & rest1 & ->).
  destruct (process_file_first_record f2 t2 Ht2 Hw2) as (d2 & rest2 & ->).
  set (A := foldl _ [] files1). set (B := foldl _ [] files2).
  set (C := foldl _ [] files3).
  unfold Indexer.store.
  destruct (A ++ _) as [|b batch] eqn:Ebatch; [done|].
  destruct (collection_add_raises env); [done|].
  unfold Chroma.add. rewrite bool_decide_eq_false_2; [done|].
  rewrite <- Ebatch. unfold Chroma.ids.
  rewrite fmap_app. intros [_ [_ Hnd]]%NoDup_app.
  rewrite <- app_comm_cons, fmap_cons in Hnd.
  apply NoDup_cons in Hnd as [Hnotin _]. apply Hnotin.
  rewrite !fmap_app, fmap_cons. cbn [Chroma.rec_id].
  apply elem_of_app. right. apply elem_of_app. right.
  apply elem_of_app. left.
  unfold Indexer.doc_id. rewrite Hstem. apply list_elem_of_here.
Qed.

Lemma shared_stem_stores_nothing_witness :
  (Indexer.initialize_knowledge_base
     (IndexEnv (fun _ => Directory true true two_index_files) false false false false)
     fresh_agent []).2.2 = [].
Proof.
  refine (shared_stem_stores_nothing
            (IndexEnv (fun _ => Directory true true two_index_files)
                      false false false false)
            fresh_agent [] _ [] _ [] (lit "alpha") (lit "beta")
            eq_refl eq_refl eq_refl eq_refl _ _);
    vm_compute; discriminate.
Defined.

(** ** Retrieval and the prompt *)

(** X21: retrieval never raises.  It gives no chunk when the session is
    not initialized or has no collection, whatever the collection would
    answer, and when the query to the collection raises; otherwise it
    gives the first list of documents of the result. *)
Theorem search_knowledge_base_degrades env self q n :
  exists found,
    Generator.search_knowledge_base env self q n = Ok found /\
    (is_initialized self = false \/ collection self = None -> found = []) /\
    (forall e, collection_query env q n = Raise e -> found = []) /\
    (forall first rest,
        is_initialized self = true -> collection self <> None ->
        collection_query env q n
        = Ok (Some (QueryResult_ (Some (first :: rest)))) ->
        found = first).
Proof.
  unfold Generator.search_knowledge_base.
  destruct (is_initialized self) eqn:Hi; cbn [negb orb].
  2: { exists []. by repeat split. }
  destruct (collection self) as [c|] eqn:Ec.
  2: { rewrite bool_decide_eq_false_2 by (by intros [? ?]). cbn [negb].
       exists []. by repeat split. }
  rewrite bool_decide_eq_true_2 by (by eexists). cbn [negb].
  destruct (collection_query env q n) as [[[[[|d ds]|]]|]|e];
    cbn [mbind Exc_bind try_except documents];
    (eexists; split; [reflexivity|]; split; [by intros [?|?]|]; split;
     [done|]); intros first rest _ _ H; try done.
  by injection H as <- <-.
Qed.

Lemma search_knowledge_base_degrades_witness :
  Generator.search_knowledge_base blocking_model fresh_agent (lit "Q") 5 = Ok [].
Proof.
  destruct (search_knowledge_base_degrades blocking_model fresh_agent (lit "Q") 5)
    as (found & -> & Hoff & _).
  f_equal. apply Hoff. by left.
Defined.

(** X22: when the payload of the model carries answer parts, the response
    is the concatenation of their texts, also when the payload reports a
    block reason: the block reason is only looked at when there is no
    answer text. *)
Theorem answer_text_wins env self q ctx :
  is_initialized self = true ->
  exists chunks s,
    Generator.search_knowledge_base env self q 5 = Ok chunks /\
    Generator.generate_response env self q ctx = Ok s /\
    forall p ps cs feedback,
      generate_content env
        (Generator.final_prompt (system_prompt self) chunks ctx q)
      = Ok (Some (Response_ (Candidate_ (Some (p :: ps)) :: cs) feedback)) ->
      s = concat (text <$> p :: ps).
Proof.
  intros Hinit.
  destruct (generate_response_initialized env self q ctx Hinit)
    as (chunks & Hs & Hg).
  exists chunks. eexists. split; [exact Hs|]. split; [exact Hg|].
  by intros p ps cs feedback ->.
Qed.

Lemma answer_text_wins_witness :
  let env := QueryEnv (fun _ _ => Raise (ExternalError []))
               (fun _ => Ok (Some (Response_
                  [Candidate_ (Some [Part_ (lit "Use "); Part_ (lit "vbt")])]
                  (Some (PromptFeedback_ safety)))))
               (fun _ => []) in
  Generator.generate_response env ready_agent (lit "Q") None
  = Ok (lit "Use vbt").
Proof.
  cbv zeta.
  destruct (answer_text_wins
              (QueryEnv (fun _ _ => Raise (ExternalError []))
                 (fun _ => Ok (Some (Response_
                    [Candidate_ (Some [Part_ (lit "Use "); Part_ (lit "vbt")])]
                    (Some (PromptFeedback_ safety)))))
                 (fun _ => []))
              ready_agent (lit "Q") None eq_refl)
    as (chunks & s & _ & -> & Hs).
  f_equal. exact (Hs _ _ _ _ eq_refl).
Defined.

Section PromptLayout.

Lemma join_cons_lines sep (x : list N) (l : list (list N)) :
  join sep (x :: l) = x ++ concat ((fun line => sep ++ line) <$> l).
Proof.
  revert x. induction l as [|y l IH]; intros x.
  - simpl. by rewrite app_nil_r.
  - rewrite join_cons2, IH. simpl. by rewrite <- !app_assoc.
Qed.

End PromptLayout.

(** X23: the layout of the prompt.  For every system prompt, retrieved
    chunks, history and query the prompt is the system prompt, then the
    context block (absent when the chunks joined by blank lines give the
    empty string), then the history block (absent when the history is
    absent or empty; it holds one line "role: content" per entry that is
    a dict with both keys and skips the others), then the query and the
    answer marker, each part after a newline. *)
Theorem prompt_layout sys chunks ctx q :
  Generator.final_prompt sys chunks ctx q
  = sys ++ context_block chunks ++ history_block ctx
        ++ NL ++ NL ++ lit "User query: " ++ q
        ++ NL ++ NL ++ lit "Answer:" ++ NL.
Proof.
  unfold Generator.final_prompt, context_block, history_block.
  destruct (join (NL ++ NL) chunks) as [|c rag];
    destruct ctx as [[|t turns]|];
    rewrite <- ?app_assoc; cbn [app]; rewrite join_cons_lines;
    cbn [fmap list_fmap concat app];
    rewrite ?fmap_app, ?concat_app; cbn [fmap list_fmap concat app];
    rewrite <- ?app_assoc; cbn [app]; rewrite ?app_nil_r; reflexivity.
Qed.

(** ** Extracted code *)

(** X24: the extracted code never starts or ends with whitespace, it is a
    part of the response text, and it contains no closing fence (a newline
    followed by three backquotes). *)
Theorem extracted_code_shape text code :
  extract_python_code text = Some code ->
  strip code = code /\
  occurs_in code text /\
  ~ occurs_in Regex.CLOSE code /\
  (code = [] \/
   (exists c r, code = c :: r /\ isspace c = false) /\
   (exists r c, code = r ++ [c] /\ isspace c = false)).
Proof.
  unfold extract_python_code.
  destruct (Regex.search text) as [g|] eqn:E; [|done]. intros [= <-].
  destruct (search_Some _ _ E) as (pre & post & Hfb).
  destruct (strip_spec g) as (before & after & Hg & Hshape).
  split; [apply strip_idempotent|]. split; [|split; [|done]].
  - destruct Hfb as [Hb _]. unfold block_at in Hb.
    exists (pre ++ Regex.OPEN ++ before), (after ++ Regex.CLOSE ++ post).
    rewrite Hb. rewrite Hg at 1. by rewrite <- !app_assoc.
  - intros (x & y & Hc). apply (first_block_inner_closed _ _ _ _ Hfb).
    exists (before ++ x), (y ++ after). rewrite Hg at 1. rewrite Hc.
    by rewrite <- !app_assoc.
Qed.

Lemma extracted_code_shape_witness :
  strip (lit "x = 1") = lit "x = 1".
Proof.
  apply (extracted_code_shape
           (lit "Try:" ++ Regex.OPEN ++ lit "  x = 1 " ++ Regex.CLOSE)).
  vm_compute. reflexivity.
Defined.

(** X25: fencing the extracted code again, as the notebook does to
    display it ("```python", newline, the code, newline, "```"), and
    extracting from that gives the same code back. *)
Theorem refenced_code_roundtrip text code :
  extract_python_code text = Some code ->
  extract_python_code (Regex.OPEN ++ code ++ Regex.CLOSE) = Some code.
Proof.
  unfold extract_python_code at 1.
  destruct (Regex.search text) as [g|] eqn:E; [|done]. intros [= <-].
  destruct (search_Some _ _ E) as (pre & post & Hfb).
  destruct (strip_spec g) as (before & after & Hg & _).
  rewrite (extract_of_first_block _ [] (strip g) []).
  - by rewrite strip_idempotent.
  - apply refenced_first_block. intros (x & y & Hc).
    apply (first_block_inner_closed _ _ _ _ Hfb).
    exists (before ++ x), (y ++ after). rewrite Hg at 1. rewrite Hc.
    by rewrite <- !app_assoc.
Qed.

Lemma refenced_code_roundtrip_witness :
  extract_python_code (Regex.OPEN ++ lit "x = 1" ++ Regex.CLOSE)
  = Some (lit "x = 1").
Proof.
  apply (refenced_code_roundtrip
           (lit "Try:" ++ Regex.OPEN ++ lit "  x = 1 " ++ Regex.CLOSE)).
  vm_compute. reflexivity.
Defined.

(** ** The chunker: how far a chunk can exceed the maximum *)

Section ChunkerBound.

Import Chunker.

Lemma step_few_words words max_chunk_size overlap st w st' :
  words <> [] -> word_ok w ->
  step words max_chunk_size overlap st w = Ok st' ->
  Forall (few_words max_chunk_size (carried_at_most words overlap + 1))
         (chunks st) ->
  Forall word_ok (current_chunk st) ->
  len (join SP (current_chunk st)) <= current_length st ->
  (current_length st <= max_chunk_size \/
   (length (current_chunk st) <= carried_at_most words overlap + 1)%nat) ->
  Forall (few_words max_chunk_size (carried_at_most words overlap + 1))
         (chunks st') /\
  Forall word_ok (current_chunk st') /\
  len (join SP (current_chunk st')) <= current_length st' /\
  (current_length st' <= max_chunk_size \/
   (length (current_chunk st') <= carried_at_most words overlap + 1)%nat).
Proof.
  intros Hne Hw Hstep Hchunks Hok Hlen Hcur. unfold step in Hstep.
  destruct (Z.leb_spec (current_length st + len w + 1) max_chunk_size).
  - injection Hstep as <-. simpl. split; [done|].
    split; [apply Forall_app; split; [done | by apply Forall_singleton]|].
    pose proof (join_snoc_len (current_chunk st) w). split; [lia | by left].
  - unfold overlap_start_index, floordiv in Hstep.
    destruct words as [|w0 ws0] eqn:Ew; [done|]. rewrite <- Ew in *.
    destruct (Z.eqb_spec (len (join SP (slice_to words (overlap / 5)))) 0);
      [done|].
    rewrite !bind_Ok in Hstep. injection Hstep as <-. simpl.
    split; [|split; [|split; [lia|]]].
    + apply Forall_app. split; [done|]. apply Forall_singleton.
      destruct Hcur as [Hfit|Hfew]; [left; lia|].
      right. by rewrite py_split_join.
    + apply Forall_app. split; [|by apply Forall_singleton].
      unfold slice_from. destruct (_ <? 0); by apply Forall_drop.
    + right. rewrite length_app. simpl.
      set (q := overlap / len (join SP (slice_to words (overlap / 5)))).
      unfold carried_at_most. fold q. unfold slice_from.
      destruct (Z.ltb_spec (Z.max 0 (len (current_chunk st) - q)) 0); [lia|].
      rewrite length_drop. unfold len. lia.
Qed.

Lemma for_each_few_words words max_chunk_size overlap ws st st' :
  words <> [] -> Forall word_ok ws ->
  for_each (step words max_chunk_size overlap) ws st = Ok st' ->
  Forall (few_words max_chunk_size (carried_at_most words overlap + 1))
         (chunks st) ->
  Forall word_ok (current_chunk st) ->
  len (join SP (current_chunk st)) <= current_length st ->
  (current_length st <= max_chunk_size \/
   (length (current_chunk st) <= carried_at_most words overlap + 1)%nat) ->
  Forall (few_words max_chunk_size (carried_at_most words overlap + 1))
         (chunks st') /\
  Forall word_ok (current_chunk st') /\
  len (join SP (current_chunk st')) <= current_length st' /\
  (current_length st' <= max_chunk_size \/
   (length (current_chunk st') <= carried_at_most words overlap + 1)%nat).
Proof.
  intros Hne Hws. revert st.
  induction Hws as [|w ws Hw Hws IH]; intros st Hrun H1 H2 H3 H4.
  - by injection Hrun as <-.
  - cbn [for_each] in Hrun.
    destruct (step words max_chunk_size overlap st w) as [st1|e] eqn:E; [|done].
    rewrite bind_Ok in Hrun.
    destruct (step_few_words _ _ _ _ _ _ Hne Hw E H1 H2 H3 H4) as (? & ? & ? & ?).
    by apply (IH st1).
Qed.

Lemma split_text_few_words text max_chunk_size overlap returned :
  _split_text text max_chunk_size overlap = Ok returned ->
  Forall (few_words max_chunk_size
            (carried_at_most (py_split text) overlap + 1)) returned.
Proof.
  unfold _split_text. pose proof (py_split_ok text) as Hok. revert Hok.
  destruct text as [|c text]; [by intros _ [= <-]|].
  destruct (py_split (c :: text)) as [|w ws] eqn:E; [by intros _ [= <-]|].
  intros Hok.
  destruct (for_each _ _ _) as [st|e] eqn:Erun; [|done].
  rewrite bind_Ok. intros [= <-].
  assert (Hne : w :: ws <> []) by done.
  destruct (for_each_few_words _ _ _ _ _ _ Hne Hok Erun)
    as (Hchunks & Hwords & Hlen & Hcur);
    [constructor | constructor | by unfold len | right; simpl; lia |].
  unfold finish. destruct (current_chunk st) as [|x cur] eqn:Ecur; [done|].
  apply Forall_app. split; [done|]. apply Forall_singleton.
  destruct Hcur as [Hfit|Hfew]; [left; lia|].
  right. by rewrite py_split_join.
Qed.

Lemma join_length_words ws :
  Forall word_ok ws -> 2 * Z.of_nat (length ws) - 1 <= len (join SP ws).
Proof.
  unfold len. induction 1 as [|w ws [Hw _] _ IH]; [simpl; lia|].
  destruct ws as [|w' ws].
  - destruct w; [done|]. simpl. lia.
  - rewrite join_cons2, !length_app. destruct w; [done|].
    simpl in *. lia.
Qed.

Lemma join_app_len (l1 l2 : list (list N)) :
  len (join SP l1) <= len (join SP (l1 ++ l2)) /\
  len (join SP l2) <= len (join SP (l1 ++ l2)).
Proof.
  unfold len. induction l1 as [|x l1 [IH1 IH2]]; [simpl; lia|].
  destruct l1 as [|y l1].
  - destruct l2 as [|z l2]; [simpl; lia|].
    change ([x] ++ z :: l2) with (x :: z :: l2).
    rewrite join_cons2, !length_app. simpl. lia.
  - change ((x :: y :: l1) ++ l2) with (x :: y :: (l1 ++ l2)).
    change ((y :: l1) ++ l2) with (y :: (l1 ++ l2)) in *.
    rewrite !join_cons2, !length_app in *. lia.
Qed.

Lemma word_run_len words chunk :
  word_run words chunk -> len chunk <= len (join SP words).
Proof.
  intros (a & seg & b & -> & ->).
  pose proof (join_app_len a (seg ++ b)) as [_ H1].
  pose proof (join_app_len seg b) as [H2 _]. lia.
Qed.

End ChunkerBound.

(** X26: whatever the parameters, a returned chunk is within
    [max_chunk_size] or holds at most [q + 1] words, where [q] is the
    number of words the overlap arithmetic carries over at most, namely
    [overlap // len(" ".join(words[:overlap//5]))]. *)
Theorem split_text_chunk_bound text max_chunk_size overlap returned :
  Chunker._split_text text max_chunk_size overlap = Ok returned ->
  Forall (few_words max_chunk_size
            (carried_at_most (py_split text) overlap + 1)) returned.
Proof. apply split_text_few_words. Qed.

Lemma split_text_chunk_bound_witness :
  Forall (few_words 5 (carried_at_most (py_split (lit "a bbbb cccc")) 5 + 1))
         [lit "a"; lit "a bbbb"; lit "a bbbb cccc"].
Proof.
  apply (split_text_chunk_bound (lit "a bbbb cccc") 5 5).
  vm_compute. reflexivity.
Defined.

(** X27: with the default parameters (1000 and 200) a returned chunk has
    at most 1000 characters or holds at most three words. *)
Theorem split_text_defaults_bound text returned :
  Chunker._split_text text Chunker.default_max_chunk_size
                      Chunker.default_overlap = Ok returned ->
  Forall (few_words 1000 3) returned.
Proof.
  intros Hrun.
  pose proof (split_text_few_words _ _ _ _ Hrun) as Hfew.
  assert (Hruns : Forall (word_run (py_split text)) returned).
  { revert Hrun. unfold Chunker._split_text.
    destruct text as [|c text]; [by intros [= <-]|].
    destruct (py_split (c :: text)) as [|w ws] eqn:E; [by intros [= <-]|].
    destruct (for_each _ _ _) as [st|e] eqn:Erun; [|done].
    rewrite bind_Ok. intros [= <-].
    destruct (for_each_runs _ _ _ _ _ _ [] Erun) as [Hcur Hchunks];
      [done|done|].
    cbn [app] in *. unfold Chunker.finish.
    destruct (Chunker.current_chunk st) as [|x cur] eqn:Ecur; [done|].
    apply Forall_app. split; [done|]. apply Forall_singleton.
    destruct Hcur as [a ->]. exists a, (x :: cur), []. by rewrite app_nil_r. }
  pose proof (py_split_ok text) as Hok.
  unfold Chunker.default_max_chunk_size, Chunker.default_overlap in *.
  apply Forall_forall. intros c Hc.
  rewrite Forall_forall in Hfew, Hruns.
  specialize (Hfew c Hc). specialize (Hruns c Hc).
  destruct Hfew as [Hfit | Hws]; [by left|].
  destruct (Z.le_gt_cases (len c) 1000) as [Hfit|Hlong]; [by left|].
  right. etrans; [exact Hws|]. unfold carried_at_most.
  change (200 / 5) with 40. unfold slice_to. change (40 <? 0) with false.
  cbv iota. change (Z.to_nat 40) with 40%nat.
  apply word_run_len in Hruns.
  destruct (decide (length (py_split text) <= 40)%nat) as [Hshort|Hmany].
  - rewrite take_ge by lia.
    assert (200 < len (join SP (py_split text))) as Hbig by lia.
    rewrite (Z.div_small 200 (len (join SP (py_split text)))); [|lia].
    simpl. lia.
  - assert (79 <= len (join SP (take 40 (py_split text)))) as HD.
    { pose proof (join_length_words (take 40 (py_split text))
                    (Forall_take _ _ _ Hok)) as H.
      rewrite length_take in H. lia. }
    assert (200 / len (join SP (take 40 (py_split text))) < 3).
    { apply Z.div_lt_upper_bound; lia. }
    lia.
Qed.

Lemma split_text_defaults_bound_witness :
  Forall (few_words 1000 3) [lit "hello world"].
Proof.
  apply (split_text_defaults_bound (lit "hello world")).
  vm_compute. reflexivity.
Defined.
